(** * go-units: typed physical quantities over float64

    A shallow embedding of package [unit] (Length, Area, Speed, Temperature)
    over Rocq's primitive binary64 floats, which are the IEEE-754 doubles
    that Go's [float64] denotes.  Go's float operators [+ - * /] and its
    comparisons [< >= == ...] are the primitive operations; the methods of
    the package are the functions below, named as in the source
    ([Length.Abs], [Length.format], [Area.String], ...). *)

From Stdlib Require Import ZArith List Sorted String Ascii Bool Lia Floats DecimalString.
Import ListNotations.

Set Warnings "-inexact-float".

Local Open Scope Z_scope.

(** ** Package strconv / fmt (Go standard library)

    [fmt.Sprintf] with the verbs [%g] and [%v] at a float64 operand is
    [strconv.FormatFloat(v, 'g', -1, 64)]: the shortest decimal digit string
    that reads back as the same float, laid out by [formatDigits] as [%e]
    when the decimal exponent is below -4 or at least 6 (the shortest-mode
    precision threshold [eprec = 6]) and as [%f] otherwise.  The digit
    generation follows [roundShortest] of strconv/ftoa.go; the layout
    follows [formatDigits], [fmtE] and [fmtF]. *)
Module strconv.

(** strconv's [decimalSlice]: the digits [d] (their number is [nd]) and the
    position [dp] of the decimal point. *)
Record decimalSlice := { d : string; dp : Z }.

Definition nd (digs : decimalSlice) : Z := Z.of_nat (String.length (d digs)).

(** Digits of a natural number, most significant first, and the same with
    trailing zeros dropped (a [decimal] never stores them). *)
Definition digitsOf (x : Z) : string :=
  NilEmpty.string_of_uint (N.to_uint (Z.to_N x)).

Fixpoint trimZeros (s : string) : string :=
  match s with
  | EmptyString => EmptyString
  | String c r =>
      match trimZeros r with
      | EmptyString => if Ascii.eqb c "0" then EmptyString else String c EmptyString
      | r' => String c r'
      end
  end.

(** May a decimal [x] be printed for a float whose rounding interval is
    [lower .. upper]?  The two bounds themselves are possible outputs only
    when the mantissa is even ([inclusive]). *)
Definition admissible (inclusive : bool) (lower upper x : Z) : bool :=
  ((lower <? x) && (x <? upper)) || (inclusive && ((x =? lower) || (x =? upper))).

(** The digit walk of [roundShortest].  [lower], [dm] and [upper] are the
    three decimals on one common scale; position [i'] stands for the digit
    of weight [10^i'].  At the first position where truncating [dm]
    ([okdown]) or rounding it up ([okup]) stays inside the interval the walk
    stops: both allowed is [d.Round] (nearest, ties to even), otherwise
    [d.RoundDown] or [d.RoundUp]. *)
Fixpoint roundShortestWalk (inclusive : bool) (lower dm upper : Z) (i : nat) : Z :=
  match i with
  | O => dm
  | S i' =>
      let pw := 10 ^ Z.of_nat i' in
      let down := (dm / pw) * pw in
      let up := down + pw in
      let okdown := admissible inclusive lower upper down in
      let okup := admissible inclusive lower upper up in
      if okdown && okup then
        match 2 * (dm - down) ?= pw with
        | Lt => down
        | Gt => up
        | Eq => if Z.even (dm / pw) then down else up
        end
      else if okdown then down
      else if okup then up
      else roundShortestWalk inclusive lower dm upper i'
  end.

(** [roundShortest] for the float [mant * 2^exp] ([mant] with its implicit
    bit, [exp] already lowered by the 52 mantissa bits).  The upper bound is
    halfway to the next float; the lower bound is halfway to the previous
    one, which is twice as near when [mant] is the power of two [2^52] and
    [exp] is not the minimum.  All three are written in units of
    [2^(exp-2)], then as integers times a power of ten. *)
Definition roundShortest (mant : positive) (exp : Z) : decimalSlice :=
  let m := Zpos mant in
  let halfGap := (m =? 2 ^ 52) && (-1074 <? exp) in
  let k := exp - 2 in
  let scale := if 0 <=? k then 2 ^ k else 5 ^ (- k) in
  let q := if 0 <=? k then 0 else k in
  let lower := (if halfGap then 4 * m - 1 else 4 * m - 2) * scale in
  let dm := 4 * m * scale in
  let upper := (4 * m + 2) * scale in
  let x := roundShortestWalk (Z.even m) lower dm upper (String.length (digitsOf upper)) in
  let s := digitsOf x in
  {| d := trimZeros s; dp := Z.of_nat (String.length s) + q |}.

(** The digit at index [j] of the slice, ['0'] outside it. *)
Definition digitAt (digs : decimalSlice) (j : Z) : ascii :=
  if (0 <=? j) && (j <? nd digs) then
    match String.get (Z.to_nat j) (d digs) with
    | Some c => c
    | None => "0"%char
    end
  else "0"%char.

Definition digitChar (n : Z) : ascii := ascii_of_nat (48 + Z.to_nat n).

Definition stringOf (l : list ascii) : string := string_of_list_ascii l.

Definition signOf (neg : bool) : string := if neg then "-"%string else ""%string.

(** [%e]: -d.ddddde±dd *)
Definition fmtE (neg : bool) (digs : decimalSlice) (prec : Z) : string :=
  let first := if nd digs =? 0 then "0"%char else digitAt digs 0 in
  let more :=
    if 0 <? prec then
      ("." ++ stringOf (map (fun i => digitAt digs (Z.of_nat i)) (seq 1 (Z.to_nat prec))))%string
    else ""%string in
  let exp := if nd digs =? 0 then 0 else dp digs - 1 in
  let esign := if exp <? 0 then "-"%string else "+"%string in
  let exp := Z.abs exp in
  let edigits :=
    if exp <? 10 then [digitChar 0; digitChar exp]
    else if exp <? 100 then [digitChar (exp / 10); digitChar (exp mod 10)]
    else [digitChar (exp / 100); digitChar ((exp / 10) mod 10); digitChar (exp mod 10)] in
  (signOf neg ++ String first more ++ "e" ++ esign ++ stringOf edigits)%string.

(** [%f]: -ddddddd.ddddd *)
Definition fmtF (neg : bool) (digs : decimalSlice) (prec : Z) : string :=
  let int :=
    if 0 <? dp digs then
      stringOf (map (fun i => digitAt digs (Z.of_nat i)) (seq 0 (Z.to_nat (dp digs))))
    else "0"%string in
  let frac :=
    if 0 <? prec then
      ("." ++ stringOf (map (fun i => digitAt digs (dp digs + Z.of_nat i))
                            (seq 0 (Z.to_nat prec))))%string
    else ""%string in
  (signOf neg ++ int ++ frac)%string.

(** [formatDigits] at format ['g'] in shortest mode: [prec = digs.nd],
    [eprec = 6]. *)
Definition formatDigits (neg : bool) (digs : decimalSlice) : string :=
  let exp := dp digs - 1 in
  if (exp <? -4) || (6 <=? exp) then fmtE neg digs (nd digs - 1)
  else fmtF neg digs (Z.max (nd digs - dp digs) 0).

(** [FormatFloat(val, 'g', -1, 64)]. *)
Definition FormatFloat (val : float) : string :=
  match Prim2SF val with
  | S754_nan => "NaN"%string
  | S754_infinity true => "-Inf"%string
  | S754_infinity false => "+Inf"%string
  | S754_zero neg => formatDigits neg {| d := ""; dp := 0 |}
  | S754_finite neg mant exp => formatDigits neg (roundShortest mant exp)
  end.

End strconv.

Module fmt.

(** [fmt.Sprintf("%g", x)] and [fmt.Sprintf("%v", x)] at a float64 [x] (or a
    value of a type whose underlying type is float64, when the verb is one
    that does not go through [String()]). *)
Definition Sprintf_g (x : float) : string := strconv.FormatFloat x.
Definition Sprintf_v (x : float) : string := strconv.FormatFloat x.

End fmt.

(** ** Package time (Go standard library)

    A [Duration] is an int64 count of nanoseconds.  [Seconds] splits it
    into whole seconds and a nanosecond remainder (Go's [/] and [%]
    truncate toward zero), both far below [2^53] and so converted to
    float64 without rounding. *)
Module time.

Definition Duration := Z.

Definition Nanosecond : Duration := 1.
Definition Second : Duration := 1000000000 * Nanosecond.
Definition Minute : Duration := 60 * Second.
Definition Hour : Duration := 60 * Minute.

(** [float64(n)] at an integer of magnitude below [2^63]. *)
Definition float64_of_int (n : Z) : float :=
  if n <? 0 then (- PrimFloat.of_uint63 (Uint63.of_Z (- n)))%float
  else PrimFloat.of_uint63 (Uint63.of_Z n).

Definition Seconds (d : Duration) : float :=
  let sec := Z.quot d Second in
  let nsec := Z.rem d Second in
  (float64_of_int sec + float64_of_int nsec / 1e9)%float.

End time.

(** ** Package unit: the quantity types and their unit constants *)

Local Open Scope float_scope.

(** Go's [a >= b] and [a > b] on float64; false as soon as an operand is
    NaN, like [<=] and [<]. *)
Definition geb (a b : float) : bool := b <=? a.
Definition gtb (a b : float) : bool := b <? a.
Infix ">=?" := geb (at level 70, no associativity) : float_scope.
Infix ">?" := gtb (at level 70, no associativity) : float_scope.

(** Length represents a linear dimension measurement in meters. *)
Definition Length := float.

Definition Meter : Length := 1.
Definition Kilometer : Length := 1e3 * Meter.
Definition Centimeter : Length := 1e-2 * Meter.
Definition Millimeter : Length := 1e-3 * Meter.
Definition Micrometer : Length := 1e-6 * Meter.
Definition Foot : Length := 0.3048 * Meter.
Definition Mile : Length := 5280 * Foot.
Definition Inch : Length := Foot / 12.
Definition NauticalMile : Length := 1852 * Meter.

(** Area represents a two-dimensional measurement in square meters.  In
    [SquareFoot], [SquareMile] and [Acre] the untyped constant product on
    the left is folded exactly before it meets the typed operand. *)
Definition Area := float.

Definition SquareMeter : Area := 1.
Definition SquareKilometer : Area := 1e6 * SquareMeter.
Definition Hectare : Area := 1e4 * SquareMeter.
Definition SquareCentimeter : Area := 1e-4 * SquareMeter.
Definition SquareMillimeter : Area := 1e-6 * SquareMeter.
Definition SquareFoot : Area := 0.09290304 * SquareMeter.
Definition SquareMile : Area := 27878400 * SquareFoot.
Definition Acre : Area := 43560 * SquareFoot.
Definition SquareInch : Area := SquareFoot / 144.

(** Speed represents the magnitude of velocity in meters per second. *)
Definition Speed := float.

Definition hourInSeconds : Speed := time.float64_of_int (Z.quot time.Hour time.Second).
Definition MeterPerSecond : Speed := 1.
Definition KilometerPerHour : Speed := (Kilometer / Meter) * MeterPerSecond / hourInSeconds.
Definition FootPerSecond : Speed := (Foot / Meter) * MeterPerSecond.
Definition MilePerHour : Speed := (Mile / Foot) * FootPerSecond / hourInSeconds.
Definition Knot : Speed := (NauticalMile / Kilometer) * KilometerPerHour.

(** Temperature represents a thermodynamic temperature in Kelvin. *)
Definition Temperature := float.

Definition Kelvin : Temperature := 1.
Definition Rankine : Temperature := 5.0 / 9.0 * Kelvin.

(** Degrees celsius and fahrenheit 0-points. *)
Definition celsius0 : Temperature := 273.15 * Kelvin.
Definition fahrenheit0 : Temperature := 459.67 * Rankine.

Module Length.

(** Meters returns the length in meters. *)
Definition Meters (l : Length) : float := l.

(** PerTime returns a speed from a length travelled in a given amount of
    time. *)
Definition PerTime (l : Length) (d : time.Duration) : Speed :=
  (Meters l / time.Seconds d) * MeterPerSecond.

(** Abs returns the length as an absolute value. *)
Definition Abs (l : Length) : Length :=
  if l <? 0 then - l else l.

Definition Kilometers (l : Length) : float := l / Kilometer.
Definition Centimeters (l : Length) : float := l / Centimeter.
Definition Millimeters (l : Length) : float := l / Millimeter.
Definition Micrometers (l : Length) : float := l / Micrometer.
Definition Feet (l : Length) : float := l / Foot.
Definition Miles (l : Length) : float := l / Mile.
Definition Inches (l : Length) : float := l / Inch.
Definition NauticalMiles (l : Length) : float := l / NauticalMile.

Record unitDesc := { length : Length; name : string; symbol : string }.

Definition kmDesc : unitDesc := {| length := Kilometer; name := "Kilometer"; symbol := "km" |}.
Definition meterDesc : unitDesc := {| length := Meter; name := "Meter"; symbol := "m" |}.

(** unitThresholds contains the thresholds for SI prefixed meter values, in
    descending order. *)
Definition unitThresholds : list unitDesc :=
  [ kmDesc;
    meterDesc;
    {| length := Centimeter; name := "Centimeter"; symbol := "cm" |};
    {| length := Millimeter; name := "Millimeter"; symbol := "mm" |};
    {| length := Micrometer; name := "Micrometer"; symbol := "µm" |} ].

(** The [for _, unitThreshold := range ...] loop of [format], with its
    early return. *)
Fixpoint formatScan (l : Length) (thresholds : list unitDesc) : option (string * unitDesc) :=
  match thresholds with
  | [] => None
  | unitThreshold :: rest =>
      if Abs l >=? length unitThreshold
      then Some (fmt.Sprintf_v (l / length unitThreshold), unitThreshold)
      else formatScan l rest
  end.

Definition format (l : Length) : string * unitDesc :=
  if Abs l >=? 1000 * length kmDesc then
    (fmt.Sprintf_g (l / length meterDesc), meterDesc)
  else
    match formatScan l unitThresholds with
    | Some r => r
    | None => (fmt.Sprintf_g (l / length meterDesc), meterDesc)
    end.

(** [fmt.Sprintf("%v%v", value, desc.symbol)] at two strings. *)
Definition String (l : Length) : string :=
  let '(value, desc) := format l in (value ++ symbol desc)%string.

(** [fmt.Sprintf("%v * %v", value, desc.name)]. *)
Definition GoString (l : Length) : string :=
  let '(value, desc) := format l in (value ++ " * " ++ name desc)%string.

End Length.

Module Area.

(** Abs returns the area as an absolute value. *)
Definition Abs (a : Area) : Area :=
  if a <? 0 then - a else a.

Definition SquareMeters (a : Area) : float := a.
Definition SquareKilometers (a : Area) : float := a / SquareKilometer.
Definition Hectares (a : Area) : float := a / Hectare.
Definition SquareCentimeters (a : Area) : float := a / SquareCentimeter.
Definition SquareMillimeters (a : Area) : float := a / SquareMillimeter.
Definition SquareFeet (a : Area) : float := a / SquareFoot.
Definition SquareMiles (a : Area) : float := a / SquareMile.
Definition Acres (a : Area) : float := a / Acre.
Definition SquareInches (a : Area) : float := a / SquareInch.

Record areaUnitDesc := { area : Area; name : string; symbol : string }.

Definition squareKmDesc : areaUnitDesc :=
  {| area := SquareKilometer; name := "SquareKilometer"; symbol := "km^2" |}.
Definition squareMeterDesc : areaUnitDesc :=
  {| area := SquareMeter; name := "SquareMeter"; symbol := "m^2" |}.

(** areaUnitThresholds contains the thresholds for SI prefixed area values. *)
Definition areaUnitThresholds : list areaUnitDesc :=
  [ squareKmDesc;
    squareMeterDesc;
    {| area := SquareCentimeter; name := "SquareCentimeter"; symbol := "cm^2" |};
    {| area := SquareMillimeter; name := "SquareMillimeter"; symbol := "mm^2" |} ].

(** The [for _, u := range areaUnitThresholds] loop of [format]. *)
Fixpoint formatScan (a : Area) (thresholds : list areaUnitDesc) : option (string * areaUnitDesc) :=
  match thresholds with
  | [] => None
  | u :: rest =>
      if Abs a >=? area u
      then Some (fmt.Sprintf_v (a / area u), u)
      else formatScan a rest
  end.

Definition format (a : Area) : string * areaUnitDesc :=
  if Abs a >? 1000000 * area squareKmDesc then
    (fmt.Sprintf_g (SquareMeters a), squareMeterDesc)
  else
    match formatScan a areaUnitThresholds with
    | Some r => r
    | None => (fmt.Sprintf_g (SquareMeters a), squareMeterDesc)
    end.

Definition String (a : Area) : string :=
  let '(value, desc) := format a in (value ++ symbol desc)%string.

Definition GoString (a : Area) : string :=
  let '(value, desc) := format a in (value ++ " * " ++ name desc)%string.

End Area.

Module Speed.

Definition MetersPerSecond (s : Speed) : float := s / MeterPerSecond.
Definition KilometersPerHour (s : Speed) : float := s / KilometerPerHour.
Definition MilesPerHour (s : Speed) : float := s / MilePerHour.
Definition FeetPerSecond (s : Speed) : float := s / FootPerSecond.
Definition Knots (s : Speed) : float := s / Knot.

(** [fmt.Sprintf("%g m/s", s.MetersPerSecond())] *)
Definition String (s : Speed) : string :=
  (fmt.Sprintf_g (MetersPerSecond s) ++ " m/s")%string.

(** [fmt.Sprintf("%g * MeterPerSecond", s.MetersPerSecond())] *)
Definition GoString (s : Speed) : string :=
  (fmt.Sprintf_g (MetersPerSecond s) ++ " * MeterPerSecond")%string.

End Speed.

Module Temperature.

Definition temperatureFromKelvin (k : float) : Temperature := k * Kelvin.

Definition TemperatureFromDegreesCelsius (c : float) : Temperature :=
  c * Kelvin + celsius0.

Definition TemperatureFromDegreesFahrenheit (f : float) : Temperature :=
  f * Rankine + fahrenheit0.

Definition temperatureFromDegreesRankine (r : float) : Temperature := r * Rankine.

(** The method [Kelvin()]; the constant of the same name is [Kelvin]. *)
Definition Kelvin_ (t : Temperature) : float := t / Kelvin.

Definition DegreesCelsius (t : Temperature) : float := (t - celsius0) / Kelvin.

Definition DegreesFahrenheit (t : Temperature) : float := (t - fahrenheit0) / Rankine.

Definition DegreesRankine (t : Temperature) : float := t / Rankine.

(** [fmt.Sprintf("%g K", t.Kelvin())] *)
Definition String (t : Temperature) : string :=
  (fmt.Sprintf_g (Kelvin_ t) ++ " K")%string.

(** [fmt.Sprintf("%v * Kelvin", t.Kelvin())] *)
Definition GoString (t : Temperature) : string :=
  (fmt.Sprintf_v (Kelvin_ t) ++ " * Kelvin")%string.

End Temperature.

(** ** Vocabulary of the properties *)

(** Go's [math.Signbit] and [math.IsInf(x, 0)]. *)
Definition Signbit (x : float) : bool :=
  match Prim2SF x with
  | S754_zero s | S754_infinity s | S754_finite s _ _ => s
  | S754_nan => false
  end.

Definition IsInf (x : float) : bool :=
  match Prim2SF x with
  | S754_infinity _ => true
  | _ => false
  end.

(** A float with a clear sign bit that is neither infinite nor NaN. *)
Definition plain_nonneg (X : spec_float) : Prop :=
  X = S754_zero false \/ exists m e, X = S754_finite false m e.

(** A normal float: finite with a full 53-bit mantissa, that is, of a
    magnitude from [2^-1022] up to the largest finite float. *)
Definition normal (x : float) : bool :=
  match Prim2SF x with
  | S754_finite _ m _ => (2 ^ 52 <=? Zpos m)%Z
  | _ => false
  end.

(** The exact value of a finite float as an integer count of [2^c], for
    [c] at most its exponent. *)
Definition scaled (X : spec_float) (c : Z) : option Z :=
  match X with
  | S754_zero _ => Some 0%Z
  | S754_finite s m e => Some ((if s then -1 else 1) * Zpos m * 2 ^ (e - c))%Z
  | _ => None
  end.

Definition exponentOf (X : spec_float) : Z :=
  match X with
  | S754_finite _ _ e => e
  | _ => 0%Z
  end.

(** [within_rel k got want]: both floats are finite and, in exact
    arithmetic, [|got - want| <= |want| / k] (a relative tolerance of
    [1/k]). *)
Definition within_rel (k : Z) (got want : float) : bool :=
  let G := Prim2SF got in
  let W := Prim2SF want in
  let c := Z.min (exponentOf G) (exponentOf W) in
  match scaled G c, scaled W c with
  | Some g, Some w => (k * Z.abs (g - w) <=? Z.abs w)%Z
  | _, _ => false
  end.

(** The unit tables of the conversion tests: each named unit that is a
    pure scale factor, with its accessor. *)
Definition lengthUnits : list (Length * (Length -> float)) :=
  [ (Kilometer, Length.Kilometers); (Meter, Length.Meters);
    (Centimeter, Length.Centimeters); (Millimeter, Length.Millimeters);
    (Micrometer, Length.Micrometers); (Mile, Length.Miles); (Foot, Length.Feet);
    (Inch, Length.Inches); (NauticalMile, Length.NauticalMiles) ].

Definition areaUnits : list (Area * (Area -> float)) :=
  [ (SquareKilometer, Area.SquareKilometers); (Hectare, Area.Hectares);
    (SquareMeter, Area.SquareMeters); (SquareCentimeter, Area.SquareCentimeters);
    (SquareMillimeter, Area.SquareMillimeters); (SquareMile, Area.SquareMiles);
    (Acre, Area.Acres); (SquareFoot, Area.SquareFeet); (SquareInch, Area.SquareInches) ].

Definition speedUnits : list (Speed * (Speed -> float)) :=
  [ (MeterPerSecond, Speed.MetersPerSecond); (FootPerSecond, Speed.FeetPerSecond);
    (KilometerPerHour, Speed.KilometersPerHour); (MilePerHour, Speed.MilesPerHour);
    (Knot, Speed.Knots) ].

Definition temperatureScaleUnits : list (Temperature * (Temperature -> float)) :=
  [ (Kelvin, Temperature.Kelvin_); (Rankine, Temperature.DegreesRankine) ].

(** [within_abs k got want]: both floats are finite and, in exact
    arithmetic, [|got - want| <= 1 / k] (an absolute margin of [1/k]). *)
Definition within_abs (k : Z) (got want : float) : bool :=
  let G := Prim2SF got in
  let W := Prim2SF want in
  let c := Z.min (exponentOf G) (exponentOf W) in
  match scaled G c, scaled W c with
  | Some g, Some w =>
      if (0 <=? c)%Z then (k * Z.abs (g - w) * 2 ^ c <=? 1)%Z
      else (k * Z.abs (g - w) <=? 2 ^ (- c))%Z
  | _, _ => false
  end.

(** The Celsius and Fahrenheit columns of the temperature test table. *)
Definition celsiusTable : list float :=
  [ -273.15; -89.2; -17.777777777777743; 0; 0.01; 15; 36.8; 58; 99.9839;
    1667.85; 5504.85 ].

Definition fahrenheitTable : list float :=
  [ -459.67; -128.56; 0; 32; 32.018; 59; 98.24; 136.4; 211.97102; 3034.13;
    9940.73 ].

(** * Properties *)

(** ** Constants

    The constant expressions of the source, evaluated as written in
    float64, give the same values as the folded forms used above. *)
Lemma constants_as_written :
  SquareFoot = 0.3048 * 0.3048 * SquareMeter /\
  SquareMile = 5280 * 5280 * SquareFoot /\
  Acre = 66 * 660 * SquareFoot /\
  SquareInch = SquareFoot / (12 * 12) /\
  hourInSeconds = 3600 /\
  Length.length Length.kmDesc * 1000 = 1e6 /\
  1000000 * Area.area Area.squareKmDesc = 1e12.
Proof. repeat split. Qed.

(** ** Order on specification floats

    [SFcompare] is the lexicographic order on (sign, exponent, mantissa);
    the facts below are what the threshold tests of [format] rely on. *)
Section SpecOrder.

Ltac cmp_cases :=
  repeat match goal with
  | H : context [Z.compare ?a ?b] |- _ => destruct (Z.compare_spec a b)
  | H : context [Pos.compare_cont Eq ?a ?b] |- _ =>
      change (Pos.compare_cont Eq a b) with (Pos.compare a b) in *;
      destruct (Pos.compare_spec a b)
  | |- context [Z.compare ?a ?b] => destruct (Z.compare_spec a b)
  | |- context [Pos.compare_cont Eq ?a ?b] =>
      change (Pos.compare_cont Eq a b) with (Pos.compare a b) in *;
      destruct (Pos.compare_spec a b)
  end.

Ltac sf_order :=
  unfold SFleb, SFltb, SFeqb in *; simpl in *; cmp_cases; simpl in *;
  subst; try congruence; try lia.

Lemma SFcompare_refl x : x <> S754_nan -> SFcompare x x = Some Eq.
Proof.
  destruct x as [[]|[]| |[] m e]; simpl; try congruence; intros _;
    rewrite Z.compare_refl, Pos.compare_cont_refl; reflexivity.
Qed.

Lemma SFleb_ltb_false x y : SFleb x y = true -> SFltb y x = false.
Proof.
  destruct x as [[]|[]| |[] mx ex], y as [[]|[]| |[] my ey]; intros H; sf_order.
Qed.

Lemma SFltb_leb_false x y : SFltb x y = true -> SFleb y x = false.
Proof.
  destruct x as [[]|[]| |[] mx ex], y as [[]|[]| |[] my ey]; intros H; sf_order.
Qed.

Lemma SFleb_total x y :
  x <> S754_nan -> y <> S754_nan -> SFleb x y = false -> SFltb y x = true.
Proof.
  destruct x as [[]|[]| |[] mx ex], y as [[]|[]| |[] my ey]; intros Hx Hy H; sf_order.
Qed.

Lemma SFltb_leb_trans x y z : SFltb x y = true -> SFleb y z = true -> SFltb x z = true.
Proof.
  destruct x as [[]|[]| |[] mx ex], y as [[]|[]| |[] my ey], z as [[]|[]| |[] mz ez];
    intros H1 H2; try discriminate; try reflexivity; sf_order.
Qed.

Lemma SFltb_nan_l y : SFltb S754_nan y = false.
Proof. reflexivity. Qed.

Lemma SFleb_nan_r x : SFleb x S754_nan = false.
Proof. destruct x as [[]|[]| |[] m e]; reflexivity. Qed.

End SpecOrder.

(** ** Float comparisons, negation and NaN *)

Lemma is_nan_spec x : is_nan x = true <-> Prim2SF x = S754_nan.
Proof.
  unfold is_nan. rewrite eqb_spec. unfold SFeqb. split.
  - destruct (Prim2SF x) eqn:E; try reflexivity;
      rewrite SFcompare_refl by discriminate; discriminate.
  - intros ->. reflexivity.
Qed.

Lemma is_nan_eq x : is_nan x = true -> x = nan.
Proof.
  intros H. apply Prim2SF_inj. apply is_nan_spec in H. rewrite H. reflexivity.
Qed.

Lemma not_nan_spec x : is_nan x = false <-> Prim2SF x <> S754_nan.
Proof.
  split.
  - intros H E. apply is_nan_spec in E. congruence.
  - intros H. destruct (is_nan x) eqn:E; [|reflexivity].
    apply is_nan_spec in E. contradiction.
Qed.

Lemma ltb_true_not_nan a b : (a <? b) = true -> is_nan a = false /\ is_nan b = false.
Proof.
  rewrite ltb_spec, !not_nan_spec. intros H; split; intros E; rewrite E in H.
  - discriminate.
  - destruct (Prim2SF a) as [[]|[]| |[] m e]; discriminate.
Qed.

Lemma ltb_geb_false a b : (a <? b) = true -> (a >=? b) = false.
Proof. unfold geb. rewrite ltb_spec, leb_spec. apply SFltb_leb_false. Qed.

Lemma leb_gtb_false a b : (a <=? b) = true -> (a >? b) = false.
Proof. unfold gtb. rewrite ltb_spec, leb_spec. apply SFleb_ltb_false. Qed.

Lemma geb_false_ltb a b :
  is_nan a = false -> is_nan b = false -> (a >=? b) = false -> (a <? b) = true.
Proof.
  unfold geb. rewrite !not_nan_spec, ltb_spec, leb_spec. intros Ha Hb.
  now apply SFleb_total.
Qed.

Lemma ltb_geb_trans a b c : (a <? b) = true -> (c >=? b) = true -> (a <? c) = true.
Proof. unfold geb. rewrite !ltb_spec, leb_spec. apply SFltb_leb_trans. Qed.

Lemma SFopp_involutive x : SFopp (SFopp x) = x.
Proof. destruct x as [[]|[]| |[] m e]; reflexivity. Qed.

Lemma opp_involutive x : - - x = x.
Proof. apply Prim2SF_inj. rewrite !opp_spec. apply SFopp_involutive. Qed.

(** ** Abs *)

Lemma Abs_SF x :
  Prim2SF (Length.Abs x) =
  match Prim2SF x with
  | S754_finite true m e => S754_finite false m e
  | S754_infinity true => S754_infinity false
  | X => X
  end.
Proof.
  unfold Length.Abs. rewrite ltb_spec.
  change (Prim2SF 0) with (S754_zero false).
  destruct (Prim2SF x) as [[]|[]| |[] m e] eqn:E; cbn;
    rewrite ?opp_spec, ?E; reflexivity.
Qed.

Lemma Abs_not_nan x : is_nan x = false -> is_nan (Length.Abs x) = false.
Proof.
  rewrite !not_nan_spec, Abs_SF.
  destruct (Prim2SF x) as [[]|[]| |[] m e]; congruence.
Qed.

Lemma Abs_opp x : is_nan x = false -> (Length.Abs x =? Length.Abs (- x)) = true.
Proof.
  rewrite not_nan_spec, eqb_spec, !Abs_SF, opp_spec.
  destruct (Prim2SF x) as [[]|[]| |[] m e]; intros H; try congruence; unfold SFeqb; cbn;
    rewrite ?Z.compare_refl, ?Pos.compare_cont_refl; reflexivity.
Qed.

(** The magnitude of a positive finite or infinite value is the value
    itself, and negating it first changes nothing. *)
Lemma Abs_pos x : (0 <? x) = true -> Length.Abs x = x /\ Length.Abs (- x) = x.
Proof.
  rewrite ltb_spec. change (Prim2SF 0) with (S754_zero false). intros H.
  split; apply Prim2SF_inj; rewrite Abs_SF, ?opp_spec;
    destruct (Prim2SF x) as [[]|[]| |[] m e]; try discriminate; reflexivity.
Qed.

(** C8 (as amended).  For every Length and every Area that is not NaN, Abs
    is at least 0, agrees on a value and its negation, is 0 at 0, and
    compares equal to the IEEE magnitude (the sign is discarded). *)
Theorem Abs_nonneg_even (x : float) :
  is_nan x = false ->
  ((Length.Abs x >=? 0) = true /\
   (Length.Abs x =? Length.Abs (- x)) = true /\
   ((x =? 0) = true -> (Length.Abs x =? 0) = true) /\
   (Length.Abs x =? abs x) = true) /\
  ((Area.Abs x >=? 0) = true /\
   (Area.Abs x =? Area.Abs (- x)) = true /\
   ((x =? 0) = true -> (Area.Abs x =? 0) = true) /\
   (Area.Abs x =? abs x) = true).
Proof.
  intros Hn.
  assert (G : (Length.Abs x >=? 0) = true /\
              (Length.Abs x =? Length.Abs (- x)) = true /\
              ((x =? 0) = true -> (Length.Abs x =? 0) = true) /\
              (Length.Abs x =? abs x) = true).
  { split; [|split; [now apply Abs_opp|split]].
    - unfold geb. rewrite leb_spec, Abs_SF.
      change (Prim2SF 0) with (S754_zero false).
      apply not_nan_spec in Hn.
      destruct (Prim2SF x) as [[]|[]| |[] m e]; try congruence; reflexivity.
    - rewrite !eqb_spec, Abs_SF.
      destruct (Prim2SF x) as [[]|[]| |[] m e]; try discriminate; auto.
    - rewrite eqb_spec, Abs_SF, abs_spec.
      apply not_nan_spec in Hn.
      destruct (Prim2SF x) as [[]|[]| |[] m e]; try congruence; unfold SFeqb; cbn;
        rewrite ?Z.compare_refl, ?Pos.compare_cont_refl; reflexivity. }
  split; exact G.
Qed.

Lemma Abs_nonneg_even_witness :
  (Length.Abs (-2.5) =? 2.5) = true /\ (Area.Abs (-2.5) >=? 0) = true.
Proof.
  destruct (Abs_nonneg_even (-2.5) eq_refl) as [[_ [_ [_ H1]]] [H2 _]].
  split; [exact H1 | exact H2].
Defined.

(** C8, as stated, fails at NaN: its magnitude is NaN, which is neither
    at least 0 nor equal to itself. *)
Lemma Abs_nan_counterexample :
  (Length.Abs nan >=? 0) = false /\ (Length.Abs nan =? Length.Abs (- nan)) = false.
Proof. split; reflexivity. Qed.

(** ** Literal cases *)

(** C2.  The twelve threshold-selection cases of Length. *)
Theorem Length_String_literals :
  Length.String (1e6 * Meter) = "1e+06m"%string /\
  Length.String (999000 * Meter) = "999km"%string /\
  Length.String (1000 * Meter) = "1km"%string /\
  Length.String (999.99 * Meter) = "999.99m"%string /\
  Length.String (1 * Meter) = "1m"%string /\
  Length.String (0.998 * Meter) = "99.8cm"%string /\
  Length.String (0.01 * Meter) = "1cm"%string /\
  Length.String (0.0099 * Meter) = "9.9mm"%string /\
  Length.String (0.001 * Meter) = "1mm"%string /\
  Length.String (9.999e-4 * Meter) = "999.9µm"%string /\
  Length.String (1e-6 * Meter) = "1µm"%string /\
  Length.String (9.99e-7 * Meter) = "9.99e-07m"%string.
Proof. repeat split; vm_compute; reflexivity. Qed.

(** ** NaN *)

(** C10.  A NaN Length fails the bypass test and every threshold test, so
    [format] ends in the base-unit fallback; likewise for Area. *)
Theorem format_NaN (l : Length) (a : Area) :
  is_nan l = true -> is_nan a = true ->
  (Length.Abs l >=? 1000 * Length.length Length.kmDesc) = false /\
  (forall u, In u Length.unitThresholds -> (Length.Abs l >=? Length.length u) = false) /\
  Length.formatScan l Length.unitThresholds = None /\
  Length.format l = ("NaN"%string, Length.meterDesc) /\
  Length.String l = "NaNm"%string /\
  Length.GoString l = "NaN * Meter"%string /\
  Area.format a = ("NaN"%string, Area.squareMeterDesc) /\
  Area.String a = "NaNm^2"%string /\
  Area.GoString a = "NaN * SquareMeter"%string.
Proof.
  intros Hl Ha. apply is_nan_eq in Hl, Ha. subst l a.
  split; [reflexivity|]. split.
  - intros u Hu. simpl in Hu.
    repeat (destruct Hu as [<-|Hu]; [reflexivity|]). contradiction.
  - repeat split; vm_compute; reflexivity.
Qed.

Lemma format_NaN_witness :
  Length.String (0 / 0) = "NaNm"%string /\ Area.String (0 / 0) = "NaNm^2"%string.
Proof.
  destruct (format_NaN (0 / 0) (0 / 0) eq_refl eq_refl)
    as (_ & _ & _ & _ & Hs & _ & _ & Ha & _).
  split; [exact Hs | exact Ha].
Defined.


(** ** Rounding in the specification of binary64

    [binary_round_aux] shifts the mantissa right until it fits the format,
    rounds to nearest even, and shifts once more if rounding carried.  The
    lemmas below read off the resulting mantissa and exponent. *)

Lemma digits2_pos_size m : digits2_pos m = Pos.size m.
Proof. induction m; simpl; congruence. Qed.

Lemma digits2_bounds m :
  (2 ^ (Zpos (digits2_pos m) - 1) <= Zpos m < 2 ^ Zpos (digits2_pos m))%Z.
Proof.
  rewrite digits2_pos_size. split.
  - assert (H := Pos.size_le m).
    assert (E : (2 ^ Zpos (Pos.size m) = 2 * 2 ^ (Zpos (Pos.size m) - 1))%Z).
    { rewrite <- Z.pow_succ_r by lia. f_equal. lia. }
    assert (H' : (2 ^ Zpos (Pos.size m) <= Zpos m~0)%Z).
    { rewrite <- Pos2Z.inj_pow. apply Pos2Z.pos_le_pos. exact H. }
    lia.
  - assert (H := Pos.size_gt m). rewrite <- Pos2Z.inj_pow. apply Pos2Z.pos_lt_pos. exact H.
Qed.

Lemma Zdigits2_bounds m :
  (0 < m)%Z -> (2 ^ (Zdigits2 m - 1) <= m < 2 ^ Zdigits2 m)%Z.
Proof. destruct m; try lia. intros _. apply digits2_bounds. Qed.

Lemma Zdigits2_nonneg m : (0 <= Zdigits2 m)%Z.
Proof. destruct m; simpl; lia. Qed.

(** A number below [2^k] has at most [k] binary digits. *)
Lemma Zdigits2_le m k : (0 <= k)%Z -> (0 <= m < 2 ^ k)%Z -> (Zdigits2 m <= k)%Z.
Proof.
  intros Hk [H0 H]. destruct (Z.eq_dec m 0) as [->|Hm]; [simpl; lia|].
  assert (B := Zdigits2_bounds m ltac:(lia)).
  destruct (Z.le_gt_cases (Zdigits2 m) k) as [|G]; [assumption|exfalso].
  assert (2 ^ k <= 2 ^ (Zdigits2 m - 1))%Z by (apply Z.pow_le_mono_r; lia).
  lia.
Qed.

(** A number of at least [2^(k-1)] has at least [k] binary digits. *)
Lemma Zdigits2_ge m k : (2 ^ (k - 1) <= m)%Z -> (0 < m)%Z -> (k <= Zdigits2 m)%Z.
Proof.
  intros H Hm. assert (B := Zdigits2_bounds m Hm).
  destruct (Z.le_gt_cases k (Zdigits2 m)) as [|G]; [assumption|exfalso].
  assert (2 ^ Zdigits2 m <= 2 ^ (k - 1))%Z
    by (apply Z.pow_le_mono_r; [lia | lia]).
  lia.
Qed.

Lemma shr_1_m mrs : (0 <= shr_m mrs)%Z -> shr_m (shr_1 mrs) = (shr_m mrs / 2)%Z.
Proof.
  destruct mrs as [m r s]. simpl. intros H.
  destruct m as [|[p|p|]|p]; simpl; try lia; try reflexivity.
  - rewrite (Pos2Z.inj_xI p). apply Z.div_unique with (r := 1%Z); lia.
  - rewrite (Pos2Z.inj_xO p). apply Z.div_unique with (r := 0%Z); lia.
Qed.

Lemma iter_pos_shr_1_m p : forall mrs,
  (0 <= shr_m mrs)%Z ->
  shr_m (iter_pos shr_1 p mrs) = (shr_m mrs / 2 ^ Zpos p)%Z.
Proof.
  induction p as [p IH|p IH|]; intros mrs H; simpl iter_pos.
  - assert (H1 : (0 <= shr_m (shr_1 mrs))%Z)
      by (rewrite shr_1_m by assumption; apply Z.div_pos; lia).
    assert (H2 : (0 <= shr_m (iter_pos shr_1 p (shr_1 mrs)))%Z)
      by (rewrite IH by assumption; apply Z.div_pos; lia).
    rewrite IH, IH, shr_1_m by assumption.
    rewrite !Z.div_div by lia. f_equal.
    rewrite (Pos2Z.inj_xI p), <- !Z.pow_add_r by lia.
    replace (2 * Zpos p + 1)%Z with (1 + Zpos p + Zpos p)%Z by lia.
    rewrite !Z.pow_add_r by lia. rewrite Z.pow_1_r. ring.
  - assert (H2 : (0 <= shr_m (iter_pos shr_1 p mrs))%Z)
      by (rewrite IH by assumption; apply Z.div_pos; lia).
    rewrite IH, IH by assumption.
    rewrite Z.div_div by lia. f_equal.
    rewrite (Pos2Z.inj_xO p), <- Z.pow_add_r by lia. f_equal. lia.
  - rewrite shr_1_m by assumption. reflexivity.
Qed.

Lemma shr_record_of_loc_m m l : shr_m (shr_record_of_loc m l) = m.
Proof. destruct l as [|[]]; reflexivity. Qed.

(** [shr_fexp] brings the exponent up to the format's exponent for the
    magnitude, dividing the mantissa by the matching power of two. *)
Lemma shr_fexp_spec m e l :
  (0 <= m)%Z ->
  let e' := Z.max e (fexp prec emax (Zdigits2 m + e)) in
  shr_m (fst (shr_fexp prec emax m e l)) = (m / 2 ^ (e' - e))%Z /\
  snd (shr_fexp prec emax m e l) = e'.
Proof.
  intros Hm e'. unfold shr_fexp, shr.
  destruct (fexp prec emax (Zdigits2 m + e) - e)%Z as [|p|p] eqn:E; simpl fst; simpl snd.
  - replace (e' - e)%Z with 0%Z by lia.
    rewrite shr_record_of_loc_m, Z.pow_0_r, Z.div_1_r. split; [reflexivity|lia].
  - replace (e' - e)%Z with (Zpos p) by lia.
    rewrite iter_pos_shr_1_m by (rewrite shr_record_of_loc_m; assumption).
    rewrite shr_record_of_loc_m. split; [reflexivity|lia].
  - replace (e' - e)%Z with 0%Z by lia.
    rewrite shr_record_of_loc_m, Z.pow_0_r, Z.div_1_r. split; [reflexivity|lia].
Qed.

Lemma round_nearest_even_bounds m l :
  (m <= round_nearest_even m l <= m + 1)%Z.
Proof.
  destruct l as [|[]]; simpl; try lia. destruct (Z.even m); lia.
Qed.

(** The shape of every result of [binary_round_aux] at a natural mantissa:
    [m1] is the rounded mantissa at exponent [e1], [e2] the final exponent. *)
Lemma binary_round_aux_shape s mz ez lz :
  (0 <= mz)%Z ->
  exists m1,
    let e1 := Z.max ez (fexp prec emax (Zdigits2 mz + ez)) in
    let e2 := Z.max e1 (fexp prec emax (Zdigits2 m1 + e1)) in
    (mz / 2 ^ (e1 - ez) <= m1 <= mz / 2 ^ (e1 - ez) + 1)%Z /\
    binary_round_aux prec emax s mz ez lz =
      match (m1 / 2 ^ (e2 - e1))%Z with
      | Z0 => S754_zero s
      | Zpos m => if (e2 <=? emax - prec)%Z then S754_finite s m e2 else S754_infinity s
      | Zneg _ => S754_nan
      end.
Proof.
  intros Hm. unfold binary_round_aux.
  destruct (shr_fexp_spec mz ez lz Hm) as [A1 A2].
  destruct (shr_fexp prec emax mz ez lz) as [mrs' e'] eqn:E1. simpl in A1, A2.
  rewrite <- A2 in A1.
  set (m1 := round_nearest_even (shr_m mrs') (loc_of_shr_record mrs')).
  assert (B := round_nearest_even_bounds (shr_m mrs') (loc_of_shr_record mrs')).
  fold m1 in B.
  assert (H1 : (0 <= m1)%Z).
  { assert (0 <= mz / 2 ^ (e' - ez))%Z
      by (apply Z.div_pos; [lia | apply Z.pow_pos_nonneg; lia]).
    lia. }
  destruct (shr_fexp_spec m1 e' loc_Exact H1) as [C1 C2].
  destruct (shr_fexp prec emax m1 e' loc_Exact) as [mrs'' e''] eqn:E2. simpl in C1, C2.
  rewrite <- C2 in C1.
  exists m1. cbv zeta. rewrite <- A2, <- C2, <- A1, <- C1. split; [exact B|reflexivity].
Qed.

(** *** Exact results *)

Lemma Zdigits2_mul_pow2 m n :
  (0 < m)%Z -> (0 <= n)%Z -> Zdigits2 (m * 2 ^ n) = (Zdigits2 m + n)%Z.
Proof.
  intros Hm Hn. assert (B := Zdigits2_bounds m Hm).
  assert (P : (0 < 2 ^ n)%Z) by (apply Z.pow_pos_nonneg; lia).
  assert (D := Zdigits2_nonneg m).
  assert (D1 : (1 <= Zdigits2 m)%Z).
  { destruct m; simpl; lia. }
  apply Z.le_antisymm.
  - apply Zdigits2_le; [lia|]. split; [nia|].
    rewrite Z.pow_add_r by lia. nia.
  - apply Zdigits2_ge; [|nia].
    replace (Zdigits2 m + n - 1)%Z with ((Zdigits2 m - 1) + n)%Z by lia.
    rewrite Z.pow_add_r by lia. nia.
Qed.

Lemma shr_1_even k :
  (0 <= k)%Z ->
  shr_1 {| shr_m := 2 * k; shr_r := false; shr_s := false |} =
  {| shr_m := k; shr_r := false; shr_s := false |}.
Proof. destruct k; simpl; try lia; reflexivity. Qed.

Lemma iter_pos_xI {A} (f : A -> A) p x :
  iter_pos f p~1 x = iter_pos f p (iter_pos f p (f x)).
Proof. reflexivity. Qed.

Lemma iter_pos_xO {A} (f : A -> A) p x :
  iter_pos f p~0 x = iter_pos f p (iter_pos f p x).
Proof. reflexivity. Qed.

Lemma iter_pos_xH {A} (f : A -> A) x : iter_pos f 1 x = f x.
Proof. reflexivity. Qed.

Lemma iter_pos_shr_1_exact p : forall k,
  (0 <= k)%Z ->
  iter_pos shr_1 p {| shr_m := k * 2 ^ Zpos p; shr_r := false; shr_s := false |} =
  {| shr_m := k; shr_r := false; shr_s := false |}.
Proof.
  induction p as [p IH|p IH|]; intros k Hk;
    rewrite ?iter_pos_xI, ?iter_pos_xO, ?iter_pos_xH.
  - assert (P : (0 < 2 ^ Zpos p)%Z) by (apply Z.pow_pos_nonneg; lia).
    replace (k * 2 ^ Zpos p~1)%Z with (2 * ((k * 2 ^ Zpos p) * 2 ^ Zpos p))%Z.
    + rewrite shr_1_even by nia. rewrite IH by nia. apply IH. assumption.
    + rewrite (Pos2Z.inj_xI p).
      replace (2 * Zpos p + 1)%Z with (1 + Zpos p + Zpos p)%Z by lia.
      rewrite !Z.pow_add_r by lia. rewrite Z.pow_1_r. ring.
  - assert (P : (0 < 2 ^ Zpos p)%Z) by (apply Z.pow_pos_nonneg; lia).
    replace (k * 2 ^ Zpos p~0)%Z with ((k * 2 ^ Zpos p) * 2 ^ Zpos p)%Z.
    + rewrite IH by nia. apply IH. assumption.
    + rewrite (Pos2Z.inj_xO p).
      replace (2 * Zpos p)%Z with (Zpos p + Zpos p)%Z by lia.
      rewrite !Z.pow_add_r by lia. ring.
  - rewrite Z.pow_1_r, Z.mul_comm. apply shr_1_even. assumption.
Qed.

(** A canonical mantissa scaled up by [2^n] and rounded at the exponent
    lowered by [n] comes back unchanged. *)
Lemma binary_round_aux_exact s m e n :
  bounded prec emax m e = true -> (0 <= n)%Z ->
  binary_round_aux prec emax s (Zpos m * 2 ^ n) (e - n) loc_Exact = S754_finite s m e.
Proof.
  unfold bounded, canonical_mantissa. intros B Hn.
  apply andb_prop in B. destruct B as [C L].
  apply Z.eqb_eq in C. apply Z.leb_le in L.
  unfold binary_round_aux.
  assert (S1 : shr_fexp prec emax (Zpos m * 2 ^ n) (e - n) loc_Exact =
               ({| shr_m := Zpos m; shr_r := false; shr_s := false |}, e)).
  { unfold shr_fexp. rewrite Zdigits2_mul_pow2 by lia.
    change (Zdigits2 (Zpos m)) with (Zpos (digits2_pos m)).
    replace (Zpos (digits2_pos m) + n + (e - n))%Z with (Zpos (digits2_pos m) + e)%Z
      by lia.
    rewrite C. replace (e - (e - n))%Z with n by lia.
    unfold shr. destruct n as [|p|p]; try lia.
    - rewrite Z.pow_0_r, Z.mul_1_r, Z.sub_0_r. reflexivity.
    - unfold shr_record_of_loc. rewrite iter_pos_shr_1_exact by lia. f_equal. lia. }
  rewrite S1. simpl shr_m. simpl loc_of_shr_record. simpl round_nearest_even.
  assert (S2 : shr_fexp prec emax (Zpos m) e loc_Exact =
               ({| shr_m := Zpos m; shr_r := false; shr_s := false |}, e)).
  { unfold shr_fexp. simpl Zdigits2. rewrite C, Z.sub_diag. reflexivity. }
  rewrite S2. simpl shr_m.
  apply Z.leb_le in L. rewrite L. reflexivity.
Qed.

Lemma Prim2SF_bounded x s m e : Prim2SF x = S754_finite s m e -> bounded prec emax m e = true.
Proof. intros E. assert (V := Prim2SF_valid x). rewrite E in V. exact V. Qed.

(** Multiplying by 1 changes no float. *)
Lemma mul_one x : x * 1 = x.
Proof.
  apply Prim2SF_inj. rewrite mul_spec.
  change (Prim2SF 1) with (S754_finite false 4503599627370496 (-52)).
  destruct (Prim2SF x) as [[]|[]| |s m e] eqn:E; try reflexivity.
  unfold SF64mul, SFmul.
  replace (xorb s false) with s by (destruct s; reflexivity).
  rewrite Pos2Z.inj_mul.
  change (Zpos 4503599627370496) with (2 ^ 52)%Z.
  change (e + -52)%Z with (e - 52)%Z.
  apply binary_round_aux_exact; [|lia].
  eapply Prim2SF_bounded; eassumption.
Qed.

Lemma div_eucl_div_mod a b : Z.div_eucl a b = ((a / b)%Z, (a mod b)%Z).
Proof. unfold Z.div, Z.modulo. destruct (Z.div_eucl a b); reflexivity. Qed.

(** Dividing by 1 changes no float. *)
Lemma div_one x : x / 1 = x.
Proof.
  apply Prim2SF_inj. rewrite div_spec.
  change (Prim2SF 1) with (S754_finite false 4503599627370496 (-52)).
  destruct (Prim2SF x) as [[]|[]| |s m e] eqn:E; try reflexivity.
  assert (B := Prim2SF_bounded _ _ _ _ E).
  assert (C : fexp prec emax (Zpos (digits2_pos m) + e) = e).
  { unfold bounded, canonical_mantissa in B. apply andb_prop in B.
    destruct B as [C _]. apply Z.eqb_eq in C. exact C. }
  unfold SF64div, SFdiv, SFdiv_core_binary.
  change (Zdigits2 (Zpos 4503599627370496)) with 53%Z.
  change (Zdigits2 (Zpos m)) with (Zpos (digits2_pos m)).
  set (e' := Z.min (fexp prec emax (Zpos (digits2_pos m) + e - (53 + -52))) (e - -52)).
  assert (He' : (e' <= e)%Z).
  { subst e'. unfold fexp in *. lia. }
  destruct (e - -52 - e')%Z as [|p|p] eqn:Es; try lia.
  rewrite Z.shiftl_mul_pow2 by lia.
  rewrite div_eucl_div_mod.
  change (Zpos 4503599627370496) with (2 ^ 52)%Z.
  replace (Zpos m * 2 ^ Zpos p)%Z with ((Zpos m * 2 ^ (e - e')) * 2 ^ 52)%Z.
  2:{ rewrite <- Z.mul_assoc, <- Z.pow_add_r by lia. do 2 f_equal. lia. }
  rewrite Z.div_mul, Z.mod_mul by lia.
  change (new_location (2 ^ 52) 0) with loc_Exact.
  replace (xorb s false) with s by (destruct s; reflexivity).
  replace e' with (e - (e - e'))%Z at 2 by lia.
  apply binary_round_aux_exact; [exact B | lia].
Qed.

(** *** Sign symmetry of division *)

Lemma binary_round_aux_opp s mz ez lz :
  binary_round_aux prec emax (negb s) mz ez lz =
  SFopp (binary_round_aux prec emax s mz ez lz).
Proof.
  unfold binary_round_aux.
  destruct (shr_fexp prec emax mz ez lz) as [mrs' e'].
  destruct (shr_fexp prec emax _ e' loc_Exact) as [mrs'' e''].
  destruct (shr_m mrs''); try reflexivity.
  destruct (e'' <=? emax - prec)%Z; reflexivity.
Qed.

Lemma SFdiv_opp_l x y : SF64div (SFopp x) y = SFopp (SF64div x y).
Proof.
  destruct x as [[]|[]| |sx mx ex], y as [[]|[]| |sy my ey]; try reflexivity;
    try (destruct sx; reflexivity); try (destruct sy; reflexivity);
    try (destruct sx, sy; reflexivity).
  unfold SF64div, SFdiv, SFopp at 1.
  destruct (SFdiv_core_binary prec emax (Zpos mx) ex (Zpos my) ey) as [[mz ez] lz].
  replace (xorb (negb sx) sy) with (negb (xorb sx sy)) by (destruct sx, sy; reflexivity).
  apply binary_round_aux_opp.
Qed.

Lemma div_opp_l x y : (- x) / y = - (x / y).
Proof. apply Prim2SF_inj. rewrite div_spec, !opp_spec, div_spec. apply SFdiv_opp_l. Qed.

(** *** No overflow *)

Lemma emin_value : SpecFloat.emin prec emax = (-1074)%Z.
Proof. reflexivity. Qed.

Lemma fexp_le k b :
  (k <= b)%Z -> (-1021 <= b)%Z -> (fexp prec emax k <= b - 53)%Z.
Proof. unfold fexp. rewrite emin_value. change prec with 53%Z. lia. Qed.

(** A value below [2^K], [K <= 1023], rounds to a finite float or to zero. *)
Lemma binary_round_aux_no_overflow s mz ez lz K :
  (0 <= mz < 2 ^ (K - ez))%Z -> (K <= 1023)%Z -> (ez <= 970)%Z ->
  binary_round_aux prec emax s mz ez lz = S754_zero s \/
  exists m e, binary_round_aux prec emax s mz ez lz = S754_finite s m e.
Proof.
  intros [H0 HK] K1023 Hez.
  destruct (binary_round_aux_shape s mz ez lz H0) as [m1 [B ->]].
  set (e1 := Z.max ez (fexp prec emax (Zdigits2 mz + ez))) in *.
  set (e2 := Z.max e1 (fexp prec emax (Zdigits2 m1 + e1))) in *.
  assert (Kez : (0 <= K - ez)%Z).
  { destruct (Z.le_gt_cases 0 (K - ez)) as [|G]; [assumption|].
    rewrite (Z.pow_neg_r 2 (K - ez)) in HK by lia. lia. }
  assert (D : (Zdigits2 mz <= K - ez)%Z) by (apply Zdigits2_le; lia).
  assert (F1 := fexp_le (Zdigits2 mz + ez) 1023 ltac:(lia) ltac:(lia)).
  assert (He1 : (ez <= e1 <= 970)%Z) by (subst e1; lia).
  assert (P : (0 < 2 ^ (e1 - ez))%Z) by (apply Z.pow_pos_nonneg; lia).
  assert (Q0 : (0 <= mz / 2 ^ (e1 - ez))%Z) by (apply Z.div_pos; lia).
  assert (D1 : (Zdigits2 m1 + e1 <= 1024)%Z).
  { destruct (Z.le_gt_cases e1 K) as [L|G].
    - assert (mz / 2 ^ (e1 - ez) < 2 ^ (K - e1))%Z.
      { apply Z.div_lt_upper_bound; [assumption|].
        rewrite <- Z.pow_add_r by lia.
        replace (e1 - ez + (K - e1))%Z with (K - ez)%Z by lia. assumption. }
      assert (Zdigits2 m1 <= K - e1 + 1)%Z.
      { apply Zdigits2_le; [lia|]. split; [lia|].
        rewrite Z.pow_add_r, Z.pow_1_r by lia.
        assert (0 < 2 ^ (K - e1))%Z by (apply Z.pow_pos_nonneg; lia). lia. }
      lia.
    - assert (mz / 2 ^ (e1 - ez) = 0)%Z.
      { apply Z.div_small. split; [assumption|].
        eapply Z.lt_le_trans; [exact HK|]. apply Z.pow_le_mono_r; lia. }
      assert (Zdigits2 m1 <= 1)%Z by (apply Zdigits2_le; simpl; lia).
      lia. }
  assert (F2 := fexp_le (Zdigits2 m1 + e1) 1024 D1 ltac:(lia)).
  assert (He2 : (e1 <= e2 <= 971)%Z) by (subst e2; lia).
  assert (P2 : (0 < 2 ^ (e2 - e1))%Z) by (apply Z.pow_pos_nonneg; lia).
  assert (Q2 : (0 <= m1 / 2 ^ (e2 - e1))%Z) by (apply Z.div_pos; lia).
  destruct (m1 / 2 ^ (e2 - e1))%Z as [|p|p]; [left; reflexivity| |lia].
  right. exists p, e2.
  replace (e2 <=? emax - prec)%Z with true; [reflexivity|].
  symmetry. apply Z.leb_le. change (emax - prec)%Z with 971%Z. lia.
Qed.

(** The quotient of two positive finite floats of moderate size neither
    overflows nor changes sign. *)
Lemma SFdiv_pos_no_overflow mx ex my ey :
  (Zpos (digits2_pos mx) + ex - (Zpos (digits2_pos my) + ey) <= 1022)%Z ->
  (ex - ey <= 970)%Z ->
  SF64div (S754_finite false mx ex) (S754_finite false my ey) = S754_zero false \/
  exists m e,
    SF64div (S754_finite false mx ex) (S754_finite false my ey) = S754_finite false m e.
Proof.
  intros HK He. unfold SF64div, SFdiv, SFdiv_core_binary.
  change (Zdigits2 (Zpos mx)) with (Zpos (digits2_pos mx)).
  change (Zdigits2 (Zpos my)) with (Zpos (digits2_pos my)).
  set (d1 := Zpos (digits2_pos mx)) in *. set (d2 := Zpos (digits2_pos my)) in *.
  set (e' := Z.min (fexp prec emax (d1 + ex - (d2 + ey))) (ex - ey)).
  assert (He' : (e' <= ex - ey)%Z) by (subst e'; lia).
  assert (Bx := digits2_bounds mx). assert (By := digits2_bounds my).
  fold d1 in Bx. fold d2 in By.
  set (m' := match (ex - ey - e')%Z with
             | Z0 => Zpos mx | Zpos _ => Z.shiftl (Zpos mx) (ex - ey - e') | Zneg _ => 0%Z
             end).
  assert (Hm' : m' = (Zpos mx * 2 ^ (ex - ey - e'))%Z).
  { subst m'. destruct (ex - ey - e')%Z as [|p|p] eqn:Es; try lia.
    rewrite Z.shiftl_mul_pow2 by lia. reflexivity. }
  rewrite div_eucl_div_mod. cbv beta iota zeta.
  set (K := Z.max (d1 + ex - (d2 + ey) + 1) e').
  apply binary_round_aux_no_overflow with (K := K); try lia.
  assert (P : (0 < 2 ^ (ex - ey - e'))%Z) by (apply Z.pow_pos_nonneg; lia).
  split; [apply Z.div_pos; lia|].
  apply Z.div_lt_upper_bound; [lia|].
  assert (P2 : (0 < 2 ^ (d2 - 1))%Z) by (apply Z.pow_pos_nonneg; subst d2; lia).
  assert (U : (m' < 2 ^ (d1 + (ex - ey - e')))%Z).
  { rewrite Hm', Z.pow_add_r by (subst d1; lia). nia. }
  assert (V : (2 ^ (d1 + (ex - ey - e')) <= 2 ^ (d2 - 1) * 2 ^ (K - e'))%Z).
  { rewrite <- Z.pow_add_r by (subst d2 K; lia).
    apply Z.pow_le_mono_r; subst K; lia. }
  assert (P3 : (0 <= 2 ^ (K - e'))%Z) by (apply Z.pow_nonneg; lia).
  nia.
Qed.

(** ** The sign in the rendering *)

Lemma formatDigits_neg digs :
  strconv.formatDigits true digs = ("-" ++ strconv.formatDigits false digs)%string.
Proof.
  unfold strconv.formatDigits.
  destruct ((strconv.dp digs - 1 <? -4)%Z || (6 <=? strconv.dp digs - 1)%Z); reflexivity.
Qed.

Lemma FormatFloat_opp y :
  plain_nonneg (Prim2SF y) ->
  strconv.FormatFloat (- y) = ("-" ++ strconv.FormatFloat y)%string.
Proof.
  unfold strconv.FormatFloat. rewrite opp_spec.
  intros [-> | (m & e & ->)]; simpl SFopp; cbv iota; apply formatDigits_neg.
Qed.

Lemma plain_nonneg_cases x :
  (x >=? 0) = true -> Signbit x = false -> IsInf x = false -> plain_nonneg (Prim2SF x).
Proof.
  unfold geb, Signbit, IsInf, plain_nonneg. rewrite leb_spec.
  change (Prim2SF 0) with (S754_zero false).
  destruct (Prim2SF x) as [[]|[]| |[] m e]; try discriminate; eauto.
Qed.

Lemma SFltb_finite_exp m e m0 e0 :
  SFltb (S754_finite false m e) (S754_finite false m0 e0) = true -> (e <= e0)%Z.
Proof.
  unfold SFltb, SFcompare. destruct (Z.compare_spec e e0); intros Hc; try lia; discriminate.
Qed.

(** Below the bypass threshold the quotient by a listed unit is finite. *)
Lemma scan_quotient_plain x m e u :
  Prim2SF x = S754_finite false m e ->
  (x <? 1000 * Length.length Length.kmDesc) = true ->
  In u Length.unitThresholds ->
  plain_nonneg (Prim2SF (x / Length.length u)).
Proof.
  intros E Hlt Hu.
  assert (B := Prim2SF_bounded _ _ _ _ E).
  unfold bounded, canonical_mantissa, fexp in B. rewrite emin_value in B.
  change prec with 53%Z in B.
  apply andb_prop in B. destruct B as [C _]. apply Z.eqb_eq in C.
  rewrite ltb_spec, E in Hlt.
  change (Prim2SF (1000 * Length.length Length.kmDesc))
    with (S754_finite false 8589934592000000 (-33)) in Hlt.
  assert (He : (e <= -33)%Z) by (eapply SFltb_finite_exp; exact Hlt).
  rewrite div_spec, E. unfold plain_nonneg.
  simpl in Hu.
  repeat (destruct Hu as [<-|Hu];
    [ match goal with
      | |- context [Prim2SF ?c] =>
          let v := eval vm_compute in (Prim2SF c) in change (Prim2SF c) with v
      end;
      match goal with
      | |- context [SF64div _ (S754_finite false ?my ?ey)] =>
          let d := eval vm_compute in (digits2_pos my) in
          assert (Hd : digits2_pos my = d) by (vm_compute; reflexivity);
          apply SFdiv_pos_no_overflow; rewrite ?Hd; lia
      end
    | ]).
  contradiction.
Qed.

Lemma formatScan_opp x us :
  Length.Abs (- x) = Length.Abs x ->
  (forall u, In u us -> (Length.Abs x >=? Length.length u) = true ->
             plain_nonneg (Prim2SF (x / Length.length u))) ->
  Length.formatScan (- x) us =
  option_map (fun r => (("-" ++ fst r)%string, snd r)) (Length.formatScan x us).
Proof.
  intros HA. induction us as [|u us IH]; intros H; simpl; [reflexivity|].
  rewrite HA. destruct (Length.Abs x >=? Length.length u) eqn:G.
  - simpl. unfold fmt.Sprintf_v. rewrite div_opp_l, FormatFloat_opp; [reflexivity|].
    apply H; [left; reflexivity | exact G].
  - apply IH. intros v Hv. apply H. right. exact Hv.
Qed.

Lemma format_opp x :
  plain_nonneg (Prim2SF x) ->
  Length.format (- x) = (("-" ++ fst (Length.format x))%string, snd (Length.format x)).
Proof.
  intros [E | (m & e & E)].
  - replace x with 0 by (apply Prim2SF_inj; rewrite E; reflexivity).
    vm_compute. reflexivity.
  - assert (P : (0 <? x) = true).
    { rewrite ltb_spec, E. reflexivity. }
    destruct (Abs_pos x P) as [A1 A2].
    assert (Q : plain_nonneg (Prim2SF x)) by (right; eauto).
    unfold Length.format. rewrite A1, A2.
    destruct (x >=? 1000 * Length.length Length.kmDesc) eqn:G.
    + simpl. unfold fmt.Sprintf_g. change (Length.length Length.meterDesc) with 1.
      rewrite !div_one. rewrite FormatFloat_opp by exact Q. reflexivity.
    + assert (Hlt : (x <? 1000 * Length.length Length.kmDesc) = true).
      { apply geb_false_ltb; [|reflexivity|exact G].
        apply not_nan_spec. rewrite E. discriminate. }
      rewrite formatScan_opp.
      * destruct (Length.formatScan x Length.unitThresholds) as [[v d]|]; simpl; [reflexivity|].
        unfold fmt.Sprintf_g. change (Length.length Length.meterDesc) with 1.
        rewrite !div_one. rewrite FormatFloat_opp by exact Q. reflexivity.
      * rewrite A1, A2. reflexivity.
      * intros u Hu _. eapply scan_quotient_plain; eassumption.
Qed.

(** C4 (as amended).  For every finite Length with a clear sign bit (a
    positive value or +0), negating the value prepends one minus sign to
    [String()] and to [GoString()]. *)
Theorem String_sign_symmetry (x : Length) :
  (x >=? 0) = true -> Signbit x = false -> IsInf x = false ->
  Length.String (- x) = ("-" ++ Length.String x)%string /\
  Length.GoString (- x) = ("-" ++ Length.GoString x)%string.
Proof.
  intros H0 Hs Hi.
  assert (F := format_opp x (plain_nonneg_cases x H0 Hs Hi)).
  unfold Length.String, Length.GoString. rewrite F.
  destruct (Length.format x) as [v d]. split; reflexivity.
Qed.

Lemma String_sign_symmetry_witness :
  Length.String (- (0.998 * Meter)) = "-99.8cm"%string /\
  Length.GoString (- (0.998 * Meter)) = "-99.8 * Centimeter"%string.
Proof.
  destruct (String_sign_symmetry (0.998 * Meter) eq_refl eq_refl eq_refl) as [H1 H2].
  split; [rewrite H1 | rewrite H2]; vm_compute; reflexivity.
Defined.

(** C4, as stated, fails at +Inf, which Go renders with its own sign. *)
Lemma String_sign_counterexample :
  (infinity >=? 0) = true /\
  Length.String (- infinity) = "-Infm"%string /\
  ("-" ++ Length.String infinity)%string = "-+Infm"%string.
Proof. repeat split; vm_compute; reflexivity. Qed.

(** ** Unit selection *)

(** The scan returns the first descriptor whose threshold is met. *)
Lemma formatScan_first l pre U post :
  (Length.Abs l >=? Length.length U) = true ->
  (forall V, In V pre -> (Length.Abs l >=? Length.length V) = false) ->
  Length.formatScan l (pre ++ U :: post) =
  Some (fmt.Sprintf_v (l / Length.length U), U).
Proof.
  intros HU. induction pre as [|V pre IH]; intros Hpre; cbn [app Length.formatScan].
  - rewrite HU. reflexivity.
  - rewrite (Hpre V (or_introl eq_refl)). apply IH.
    intros W HW. apply Hpre. right. exact HW.
Qed.

Lemma formatScan_none l us :
  (forall V, In V us -> (Length.Abs l >=? Length.length V) = false) ->
  Length.formatScan l us = None.
Proof.
  induction us as [|V us IH]; intros H; cbn [Length.formatScan]; [reflexivity|].
  rewrite (H V (or_introl eq_refl)). apply IH.
  intros W HW. apply H. right. exact HW.
Qed.

Lemma sorted_after {A} (R : A -> A -> Prop) pre U post :
  StronglySorted R (pre ++ U :: post) -> forall V, In V post -> R U V.
Proof.
  induction pre as [|W pre IH]; cbn [app]; intros H V HV.
  - apply StronglySorted_inv in H. destruct H as [_ H].
    rewrite Forall_forall in H. apply H. exact HV.
  - apply StronglySorted_inv in H. destruct H as [H _]. apply IH; assumption.
Qed.

(** unitThresholds is in strictly descending order of scale. *)
Lemma unitThresholds_descending :
  StronglySorted (fun a b => (Length.length a >? Length.length b) = true)
                 Length.unitThresholds.
Proof.
  unfold Length.unitThresholds.
  repeat (apply SSorted_cons; [|repeat (apply Forall_cons; [reflexivity|]); apply Forall_nil]).
  apply SSorted_nil.
Qed.

Lemma gtb_leb a b : (a >? b) = true -> (b <=? a) = true.
Proof.
  unfold gtb. rewrite ltb_spec, leb_spec. unfold SFltb, SFleb.
  destruct (SFcompare (Prim2SF b) (Prim2SF a)) as [[]|]; congruence.
Qed.

Lemma leb_refl a : is_nan a = false -> (a <=? a) = true.
Proof.
  rewrite not_nan_spec, leb_spec. intros H. unfold SFleb.
  rewrite SFcompare_refl by assumption. reflexivity.
Qed.

(** C1.  Below 1000 km, [format] picks the first unit of the descending
    list whose scale the magnitude reaches, which is the largest such unit,
    and renders the quotient by that scale; when no threshold is met, which
    is when the magnitude is below one micrometer, it falls back to meters
    in compact notation. *)
Theorem format_best_fit (l : Length) :
  (Length.Abs l <? 1000 * Kilometer) = true ->
  StronglySorted (fun a b => (Length.length a >? Length.length b) = true)
                 Length.unitThresholds /\
  (forall pre U post,
      Length.unitThresholds = pre ++ U :: post ->
      (Length.Abs l >=? Length.length U) = true ->
      (forall V, In V pre -> (Length.Abs l >=? Length.length V) = false) ->
      Length.format l = (fmt.Sprintf_v (l / Length.length U), U) /\
      Length.String l = (fmt.Sprintf_v (l / Length.length U) ++ Length.symbol U)%string /\
      Length.GoString l =
        (fmt.Sprintf_v (l / Length.length U) ++ " * " ++ Length.name U)%string /\
      (forall V, In V Length.unitThresholds ->
                 (Length.Abs l >=? Length.length V) = true ->
                 (Length.length V <=? Length.length U) = true)) /\
  ((Length.Abs l <? Micrometer) = true <->
   (forall V, In V Length.unitThresholds -> (Length.Abs l >=? Length.length V) = false)) /\
  ((Length.Abs l <? Micrometer) = true ->
   Length.format l = (fmt.Sprintf_g (l / Meter), Length.meterDesc) /\
   Length.String l = (fmt.Sprintf_g (l / Meter) ++ "m")%string /\
   Length.GoString l = (fmt.Sprintf_g (l / Meter) ++ " * Meter")%string).
Proof.
  intros Hlt.
  assert (G : (Length.Abs l >=? 1000 * Length.length Length.kmDesc) = false)
    by (apply ltb_geb_false; exact Hlt).
  assert (Hn : is_nan (Length.Abs l) = false) by (apply ltb_true_not_nan in Hlt; tauto).
  assert (Small : (Length.Abs l <? Micrometer) = true ->
                  forall V, In V Length.unitThresholds ->
                            (Length.Abs l >=? Length.length V) = false).
  { intros Hs V HV. apply ltb_geb_false.
    apply ltb_geb_trans with (b := Micrometer); [exact Hs|].
    unfold geb. simpl in HV.
    repeat (destruct HV as [<-|HV]; [reflexivity|]). contradiction. }
  split; [exact unitThresholds_descending|]. split; [|split].
  - intros pre U post Hsplit HU Hpre.
    assert (F : Length.format l = (fmt.Sprintf_v (l / Length.length U), U)).
    { unfold Length.format. rewrite G, Hsplit, formatScan_first by assumption. reflexivity. }
    unfold Length.String, Length.GoString. rewrite F.
    repeat split.
    intros V HV HVge. rewrite Hsplit in HV.
    apply in_app_or in HV. destruct HV as [HV|[<-|HV]].
    + rewrite (Hpre V HV) in HVge. discriminate.
    + apply leb_refl.
      assert (HU' : In U Length.unitThresholds)
        by (rewrite Hsplit; apply in_or_app; right; left; reflexivity).
      simpl in HU'. repeat (destruct HU' as [<-|HU']; [reflexivity|]). contradiction.
    + apply gtb_leb.
      assert (S := unitThresholds_descending). rewrite Hsplit in S.
      exact (sorted_after _ pre U post S V HV).
  - split; [exact Small|].
    intros H. apply geb_false_ltb; [exact Hn | reflexivity |].
    apply (H {| Length.length := Micrometer; Length.name := "Micrometer";
                Length.symbol := "µm" |}).
    simpl. tauto.
  - intros Hs.
    assert (F : Length.format l = (fmt.Sprintf_g (l / Meter), Length.meterDesc)).
    { unfold Length.format. rewrite G, formatScan_none by (apply Small; exact Hs).
      reflexivity. }
    unfold Length.String, Length.GoString. rewrite F. repeat split.
Qed.

Lemma format_best_fit_witness :
  Length.format (0.998 * Meter) =
    (fmt.Sprintf_v (0.998 * Meter / Centimeter),
     {| Length.length := Centimeter; Length.name := "Centimeter"; Length.symbol := "cm" |}) /\
  Length.format (9.99e-7 * Meter) = (fmt.Sprintf_g (9.99e-7 * Meter / Meter), Length.meterDesc).
Proof.
  destruct (format_best_fit (0.998 * Meter) eq_refl) as (_ & H & _).
  destruct (format_best_fit (9.99e-7 * Meter) eq_refl) as (_ & _ & _ & K).
  split.
  - refine (proj1 (H [Length.kmDesc; Length.meterDesc] _ _ eq_refl eq_refl _)).
    intros V [<-|[<-|[]]]; reflexivity.
  - exact (proj1 (K eq_refl)).
Defined.

(** ** The bypass thresholds *)

(** C3.  Length leaves the unit list for meters as soon as the magnitude
    reaches 1000 km (inclusive); Area leaves it for square meters only when
    the magnitude exceeds 1,000,000 km^2 (exclusive).  Between one unit of
    the largest listed size and the threshold both render in that unit. *)
Theorem bypass_thresholds :
  (forall l : Length,
      (Length.Abs l >=? 1000 * Kilometer) = true ->
      Length.format l = (fmt.Sprintf_g (l / Meter), Length.meterDesc)) /\
  (forall l : Length,
      (Length.Abs l >=? Kilometer) = true ->
      (Length.Abs l <? 1000 * Kilometer) = true ->
      Length.format l = (fmt.Sprintf_v (l / Kilometer), Length.kmDesc)) /\
  Length.String (1000 * Kilometer) = "1e+06m"%string /\
  Length.String (next_down (1000 * Kilometer)) = "999.9999999999999km"%string /\
  (forall a : Area,
      (Area.Abs a >? 1000000 * SquareKilometer) = true ->
      Area.format a = (fmt.Sprintf_g a, Area.squareMeterDesc)) /\
  (forall a : Area,
      (Area.Abs a >=? SquareKilometer) = true ->
      (Area.Abs a <=? 1000000 * SquareKilometer) = true ->
      Area.format a = (fmt.Sprintf_v (a / SquareKilometer), Area.squareKmDesc)) /\
  Area.String (1000000 * SquareKilometer) = "1e+06km^2"%string /\
  Area.String (next_up (1000000 * SquareKilometer)) = "1.0000000000000001e+12m^2"%string.
Proof.
  split; [|split; [|split; [|split; [|split; [|split; [|split]]]]]].
  - intros l H. unfold Length.format.
    change (Length.length Length.kmDesc) with Kilometer. rewrite H. reflexivity.
  - intros l H1 H2. unfold Length.format.
    change (Length.length Length.kmDesc) with Kilometer.
    rewrite (ltb_geb_false _ _ H2).
    unfold Length.unitThresholds. cbn [Length.formatScan].
    change (Length.length Length.kmDesc) with Kilometer. rewrite H1. reflexivity.
  - vm_compute. reflexivity.
  - vm_compute. reflexivity.
  - intros a H. unfold Area.format.
    change (Area.area Area.squareKmDesc) with SquareKilometer. rewrite H. reflexivity.
  - intros a H1 H2. unfold Area.format.
    change (Area.area Area.squareKmDesc) with SquareKilometer.
    rewrite (leb_gtb_false _ _ H2).
    unfold Area.areaUnitThresholds. cbn [Area.formatScan].
    change (Area.area Area.squareKmDesc) with SquareKilometer. rewrite H1. reflexivity.
  - vm_compute. reflexivity.
  - vm_compute. reflexivity.
Qed.

Lemma bypass_thresholds_witness :
  Length.format (1000 * Kilometer) = (fmt.Sprintf_g (1000 * Kilometer / Meter), Length.meterDesc) /\
  Length.format (999 * Kilometer) = (fmt.Sprintf_v (999 * Kilometer / Kilometer), Length.kmDesc) /\
  Area.format (2000000 * SquareKilometer) =
    (fmt.Sprintf_g (2000000 * SquareKilometer), Area.squareMeterDesc) /\
  Area.format (1000000 * SquareKilometer) =
    (fmt.Sprintf_v (1000000 * SquareKilometer / SquareKilometer), Area.squareKmDesc).
Proof.
  destruct bypass_thresholds as (L1 & L2 & _ & _ & A1 & A2 & _).
  split; [|split; [|split]].
  - exact (L1 (1000 * Kilometer) eq_refl).
  - exact (L2 (999 * Kilometer) eq_refl eq_refl).
  - exact (A1 (2000000 * SquareKilometer) eq_refl).
  - exact (A2 (1000000 * SquareKilometer) eq_refl eq_refl).
Defined.

(** ** Single-unit formatting *)

(** C7.  Speed and Temperature render one fixed unit: the value in meters
    per second (in Kelvin), which is the stored number itself, in general
    numeric formatting, followed by a fixed suffix. *)
Theorem single_unit_formatting :
  (forall s : Speed,
      Speed.String s = (fmt.Sprintf_g (Speed.MetersPerSecond s) ++ " m/s")%string /\
      Speed.GoString s =
        (fmt.Sprintf_g (Speed.MetersPerSecond s) ++ " * MeterPerSecond")%string /\
      Speed.MetersPerSecond s = s) /\
  (forall t : Temperature,
      Temperature.String t = (fmt.Sprintf_g (Temperature.Kelvin_ t) ++ " K")%string /\
      Temperature.GoString t =
        (fmt.Sprintf_v (Temperature.Kelvin_ t) ++ " * Kelvin")%string /\
      Temperature.Kelvin_ t = t) /\
  Speed.String (299792458 * MeterPerSecond) = "2.99792458e+08 m/s"%string /\
  Speed.GoString (0.001 * MeterPerSecond) = "0.001 * MeterPerSecond"%string /\
  Temperature.String (294.15 * Kelvin) = "294.15 K"%string /\
  Temperature.GoString (15.7e6 * Kelvin) = "1.57e+07 * Kelvin"%string.
Proof.
  split; [|split; [|repeat split; vm_compute; reflexivity]].
  - intros s. repeat split. apply div_one.
  - intros t. repeat split. apply div_one.
Qed.

(** ** Temperature *)

(** C6.  The affine constructors and accessors, and absolute zero.  Since
    [Kelvin] is 1, the Celsius pair is the float addition and subtraction
    of 273.15. *)
Theorem Temperature_affine :
  (forall c, Temperature.TemperatureFromDegreesCelsius c = c * Kelvin + 273.15 * Kelvin) /\
  (forall f, Temperature.TemperatureFromDegreesFahrenheit f = f * Rankine + 459.67 * Rankine) /\
  Rankine = 5 / 9 * Kelvin /\
  (forall t, Temperature.DegreesCelsius t = (t - 273.15 * Kelvin) / (1 * Kelvin)) /\
  (forall t, Temperature.DegreesFahrenheit t = (t - 459.67 * Rankine) / Rankine) /\
  (forall c, Temperature.TemperatureFromDegreesCelsius c = c + 273.15) /\
  (forall t, Temperature.DegreesCelsius t = t - 273.15) /\
  Temperature.Kelvin_ (0 * Kelvin) = 0 /\
  Temperature.DegreesCelsius (0 * Kelvin) = -273.15 /\
  Temperature.DegreesFahrenheit (0 * Kelvin) = -459.67 /\
  Temperature.DegreesRankine (0 * Kelvin) = 0.
Proof.
  repeat split.
  - intros c. unfold Temperature.TemperatureFromDegreesCelsius.
    change Kelvin with 1. rewrite mul_one. reflexivity.
  - intros t. unfold Temperature.DegreesCelsius.
    change Kelvin with 1. rewrite div_one. reflexivity.
Qed.

(** ** PerTime *)

Lemma Seconds_zero : time.Seconds 0%Z = 0.
Proof. reflexivity. Qed.

(** C9.  PerTime is the quotient of the meters by the seconds; at a zero
    duration it is +Inf for a positive length, -Inf for a negative one and
    NaN for a zero or NaN length.  Every operation of the package is a
    total function to a float or a string: none returns an error. *)
Theorem PerTime_zero_duration :
  (forall (l : Length) (d : time.Duration),
      Length.PerTime l d = Length.Meters l / time.Seconds d) /\
  (forall l : Length, (l >? 0) = true -> Length.PerTime l 0%Z = infinity) /\
  (forall l : Length, (l <? 0) = true -> Length.PerTime l 0%Z = neg_infinity) /\
  (forall l : Length, (l =? 0) = true \/ is_nan l = true ->
                      is_nan (Length.PerTime l 0%Z) = true).
Proof.
  assert (P : forall (l : Length) (d : time.Duration),
             Length.PerTime l d = Length.Meters l / time.Seconds d).
  { intros l d. unfold Length.PerTime. apply mul_one. }
  split; [exact P|]. split; [|split]; intros l H; rewrite P, Seconds_zero;
    unfold Length.Meters.
  - apply Prim2SF_inj. rewrite div_spec. unfold gtb in H. rewrite ltb_spec in H.
    change (Prim2SF 0) with (S754_zero false) in *.
    change (Prim2SF infinity) with (S754_infinity false).
    destruct (Prim2SF l) as [[]|[]| |[] m e]; try discriminate; reflexivity.
  - apply Prim2SF_inj. rewrite div_spec. rewrite ltb_spec in H.
    change (Prim2SF 0) with (S754_zero false) in *.
    change (Prim2SF neg_infinity) with (S754_infinity true).
    destruct (Prim2SF l) as [[]|[]| |[] m e]; try discriminate; reflexivity.
  - apply is_nan_spec. rewrite div_spec.
    change (Prim2SF 0) with (S754_zero false).
    destruct H as [H|H].
    + rewrite eqb_spec in H. change (Prim2SF 0) with (S754_zero false) in H.
      destruct (Prim2SF l) as [[]|[]| |[] m e]; try discriminate; reflexivity.
    + apply is_nan_spec in H. rewrite H. reflexivity.
Qed.

Lemma PerTime_zero_duration_witness :
  Length.PerTime (3 * Meter) 0%Z = infinity /\
  Length.PerTime (- (3 * Meter)) 0%Z = neg_infinity /\
  is_nan (Length.PerTime (0 * Meter) 0%Z) = true.
Proof.
  destruct PerTime_zero_duration as (_ & Hp & Hn & Hz).
  split; [|split].
  - exact (Hp (3 * Meter) eq_refl).
  - exact (Hn (- (3 * Meter)) eq_refl).
  - exact (Hz (0 * Meter) (or_introl eq_refl)).
Defined.

(** ** Round trip through a unit *)

(** A finite result of [binary_round_aux] is within one unit in the last
    place of the exact value [mz * 2^ez]. *)
Lemma binary_round_aux_finite_bounds s mz ez lz s' m e :
  (0 <= mz)%Z ->
  binary_round_aux prec emax s mz ez lz = S754_finite s' m e ->
  s' = s /\ (ez <= e)%Z /\
  (Zpos m * 2 ^ (e - ez) <= mz + 2 ^ (e - ez))%Z /\
  (mz < (Zpos m + 1) * 2 ^ (e - ez))%Z.
Proof.
  intros H0 Hf.
  destruct (binary_round_aux_shape s mz ez lz H0) as [m1 [B E]].
  set (e1 := Z.max ez (fexp prec emax (Zdigits2 mz + ez))) in *.
  set (e2 := Z.max e1 (fexp prec emax (Zdigits2 m1 + e1))) in *.
  rewrite E in Hf. clear E.
  assert (P1 : (0 < 2 ^ (e1 - ez))%Z) by (apply Z.pow_pos_nonneg; lia).
  assert (P2 : (0 < 2 ^ (e2 - e1))%Z) by (apply Z.pow_pos_nonneg; lia).
  assert (D1 := Z.div_mod mz (2 ^ (e1 - ez)) ltac:(lia)).
  assert (R1 := Z.mod_pos_bound mz (2 ^ (e1 - ez)) P1).
  assert (D2 := Z.div_mod m1 (2 ^ (e2 - e1)) ltac:(lia)).
  assert (R2 := Z.mod_pos_bound m1 (2 ^ (e2 - e1)) P2).
  destruct (m1 / 2 ^ (e2 - e1))%Z as [|p|p] eqn:Q; try discriminate.
  destruct (e2 <=? emax - prec)%Z; try discriminate.
  injection Hf as <- <- <-.
  replace (e2 - ez)%Z with ((e1 - ez) + (e2 - e1))%Z by lia.
  rewrite Z.pow_add_r by lia.
  set (a1 := (2 ^ (e1 - ez))%Z) in *. set (a2 := (2 ^ (e2 - e1))%Z) in *.
  set (fl := (mz / a1)%Z) in *.
  repeat split; try lia; nia.
Qed.

Lemma SFmul_finite_bounds sx mx ex su mu eu sp mp ep :
  SF64mul (S754_finite sx mx ex) (S754_finite su mu eu) = S754_finite sp mp ep ->
  sp = xorb sx su /\ (ex + eu <= ep)%Z /\
  (Zpos mp * 2 ^ (ep - (ex + eu)) <= Zpos mx * Zpos mu + 2 ^ (ep - (ex + eu)))%Z /\
  (Zpos mx * Zpos mu < (Zpos mp + 1) * 2 ^ (ep - (ex + eu)))%Z.
Proof.
  unfold SF64mul, SFmul. intros H.
  apply binary_round_aux_finite_bounds in H; [|lia].
  rewrite Pos2Z.inj_mul in H. exact H.
Qed.

Lemma SFdiv_finite_bounds sp mp ep su mu eu sr mr er :
  SF64div (S754_finite sp mp ep) (S754_finite su mu eu) = S754_finite sr mr er ->
  sr = xorb sp su /\
  exists s, (0 <= s)%Z /\ (ep - eu - s <= er)%Z /\
    (Zpos mr * 2 ^ (er - (ep - eu - s)) * Zpos mu <=
       Zpos mp * 2 ^ s + 2 ^ (er - (ep - eu - s)) * Zpos mu)%Z /\
    (Zpos mp * 2 ^ s < (Zpos mr + 1) * 2 ^ (er - (ep - eu - s)) * Zpos mu)%Z.
Proof.
  unfold SF64div, SFdiv, SFdiv_core_binary.
  set (e' := Z.min (fexp prec emax (Zdigits2 (Zpos mp) + ep - (Zdigits2 (Zpos mu) + eu)))
                   (ep - eu)).
  assert (He' : (e' <= ep - eu)%Z) by (subst e'; lia).
  set (m' := match (ep - eu - e')%Z with
             | Z0 => Zpos mp | Zpos _ => Z.shiftl (Zpos mp) (ep - eu - e') | Zneg _ => 0%Z
             end).
  assert (Hm' : m' = (Zpos mp * 2 ^ (ep - eu - e'))%Z).
  { subst m'. destruct (ep - eu - e')%Z as [|p|p] eqn:Es; try lia.
    rewrite Z.shiftl_mul_pow2 by lia. reflexivity. }
  rewrite div_eucl_div_mod. cbv beta iota zeta.
  assert (P : (0 < 2 ^ (ep - eu - e'))%Z) by (apply Z.pow_pos_nonneg; lia).
  assert (Q0 : (0 <= m' / Zpos mu)%Z) by (apply Z.div_pos; lia).
  intros H. apply binary_round_aux_finite_bounds in H; [|exact Q0].
  destruct H as (Hs & Hle & Hup & Hlo).
  split; [exact Hs|]. exists (ep - eu - e')%Z.
  replace (ep - eu - (ep - eu - e'))%Z with e' by lia.
  assert (D := Z.div_mod m' (Zpos mu) ltac:(lia)).
  assert (R := Z.mod_pos_bound m' (Zpos mu) ltac:(lia)).
  assert (PC : (0 < 2 ^ (er - e'))%Z) by (apply Z.pow_pos_nonneg; lia).
  rewrite <- Hm'.
  set (C := (2 ^ (er - e'))%Z) in *. set (q := (m' / Zpos mu)%Z) in *.
  repeat split; try lia; nia.
Qed.

(** The arithmetic heart of the round trip: two roundings, each within one
    unit in the last place of a 53-bit mantissa, stay within [10^-15]. *)
Lemma round_trip_core mp mr X U A B C :
  (2 ^ 52 <= mp)%Z -> (2 ^ 52 <= mr)%Z ->
  (0 < X)%Z -> (0 < U)%Z -> (0 < A)%Z -> (0 < B)%Z -> (0 < C)%Z ->
  (mp * A <= X * U + A)%Z -> (X * U < (mp + 1) * A)%Z ->
  (mr * C * U <= mp * B + C * U)%Z -> (mp * B < (mr + 1) * C * U)%Z ->
  (10 ^ 15 * Z.abs (mr * A * C - X * B) <= X * B)%Z.
Proof.
  intros Tp Tr HX HU HA HB HC M1 M2 D1 D2.
  change (2 ^ 52)%Z with 4503599627370496%Z in *.
  change (10 ^ 15)%Z with 1000000000000000%Z.
  set (T := 4503599627370496%Z) in *.
  (* one unit of the product, and of the quotient, against the values *)
  assert (S1 : (A * B * (T - 1) <= X * U * B)%Z).
  { assert ((T - 1) * A <= X * U)%Z by nia. nia. }
  assert (S2 : (C * U * (T - 1) <= mp * B)%Z) by nia.
  assert (S3 : (mp * A * (T - 1) <= X * U * T)%Z) by nia.
  assert (S4 : (A * C * U * (T - 1) * (T - 1) <= X * U * B * T)%Z).
  { assert (A * (C * U * (T - 1)) <= A * (mp * B))%Z
      by (apply Z.mul_le_mono_nonneg_l; lia).
    assert (B * (mp * A * (T - 1)) <= B * (X * U * T))%Z
      by (apply Z.mul_le_mono_nonneg_l; lia).
    assert (0 <= T - 1)%Z by (subst T; lia).
    assert ((T - 1) * (A * (C * U * (T - 1))) <= (T - 1) * (A * (mp * B)))%Z
      by (apply Z.mul_le_mono_nonneg_l; lia).
    lia. }
  (* distance of the two scaled mantissas, times U *)
  assert (S5 : (Z.abs (mr * A * C - X * B) * U <= A * C * U + A * B)%Z).
  { assert (Z.abs (mr * C * U - mp * B) <= C * U)%Z by lia.
    assert (Z.abs (mp * A - X * U) <= A)%Z by lia.
    assert (E : ((mr * A * C - X * B) * U =
                 A * (mr * C * U - mp * B) + B * (mp * A - X * U))%Z) by ring.
    rewrite <- (Z.abs_eq U) at 1 by lia. rewrite <- Z.abs_mul, E.
    eapply Z.le_trans; [apply Z.abs_triangle|].
    rewrite !Z.abs_mul, (Z.abs_eq A), (Z.abs_eq B) by lia.
    assert (A * Z.abs (mr * C * U - mp * B) <= A * (C * U))%Z
      by (apply Z.mul_le_mono_nonneg_l; lia).
    assert (B * Z.abs (mp * A - X * U) <= B * A)%Z
      by (apply Z.mul_le_mono_nonneg_l; lia).
    lia. }
  assert (S6 : (1000000000000000 * (A * C * U + A * B) <= X * U * B)%Z).
  { set (Y := (A * C * U)%Z) in *. set (Z0 := (A * B)%Z) in *.
    set (V := (X * U * B)%Z) in *.
    assert (YT : (Y * ((T - 1) * (T - 1)) <= V * T)%Z) by lia.
    subst T. lia. }
  assert (S7 : (1000000000000000 * Z.abs (mr * A * C - X * B) * U <= X * B * U)%Z) by nia.
  apply Z.mul_le_mono_pos_r with (p := U); assumption.
Qed.

Lemma xorb_cancel a b : xorb (xorb a b) b = a.
Proof. destruct a, b; reflexivity. Qed.

(** Multiplying by a scale factor and dividing by it again returns the
    value within a relative tolerance of [10^-15], provided neither step
    overflows or underflows. *)
Lemma mul_div_round_trip (x U : float) :
  normal (x * U) = true -> normal (x * U / U) = true ->
  within_rel (10 ^ 15) (x * U / U) x = true.
Proof.
  unfold normal, within_rel. rewrite div_spec, mul_spec.
  destruct (Prim2SF x) as [sx|sx| |sx mx ex] eqn:EX;
    destruct (Prim2SF U) as [su|su| |su mu eu] eqn:EU;
    cbv beta iota delta [SF64mul SFmul]; try discriminate.
  fold (SFmul prec emax (S754_finite sx mx ex) (S754_finite su mu eu)).
  fold (SF64mul (S754_finite sx mx ex) (S754_finite su mu eu)).
  destruct (SF64mul (S754_finite sx mx ex) (S754_finite su mu eu))
    as [sp|sp| |sp mp ep] eqn:EP; try discriminate.
  intros Np. apply Z.leb_le in Np.
  destruct (SF64div (S754_finite sp mp ep) (S754_finite su mu eu))
    as [sr|sr| |sr mr er] eqn:ER; try discriminate.
  intros Nr. apply Z.leb_le in Nr.
  apply SFmul_finite_bounds in EP. destruct EP as (-> & Hep & M1 & M2).
  apply SFdiv_finite_bounds in ER. destruct ER as (-> & s & Hs & Her & D1 & D2).
  rewrite xorb_cancel. cbn [scaled exponentOf].
  apply Z.leb_le.
  set (c := Z.min er ex).
  set (A := (2 ^ (ep - (ex + eu)))%Z) in *.
  set (B := (2 ^ s)%Z) in *.
  set (C := (2 ^ (er - (ep - eu - s)))%Z) in *.
  set (G := (2 ^ (ex - c))%Z). set (H := (2 ^ (er - c))%Z).
  assert (PA : (0 < A)%Z) by (apply Z.pow_pos_nonneg; lia).
  assert (PB : (0 < B)%Z) by (apply Z.pow_pos_nonneg; lia).
  assert (PC : (0 < C)%Z) by (apply Z.pow_pos_nonneg; lia).
  assert (PG : (0 < G)%Z) by (apply Z.pow_pos_nonneg; lia).
  assert (PH : (0 < H)%Z) by (apply Z.pow_pos_nonneg; lia).
  assert (E : (H * B = G * A * C)%Z).
  { subst H B G A C. rewrite <- !Z.pow_add_r by lia. f_equal. lia. }
  assert (K := round_trip_core (Zpos mp) (Zpos mr) (Zpos mx) (Zpos mu) A B C
                 Np Nr ltac:(lia) ltac:(lia) PA PB PC M1 M2 D1 D2).
  assert (S : (Z.abs ((if sx then -1 else 1) * Zpos mr * H -
                      (if sx then -1 else 1) * Zpos mx * G) =
               Z.abs (Zpos mr * H - Zpos mx * G))%Z)
    by (destruct sx; lia).
  assert (S' : (Z.abs ((if sx then -1 else 1) * Zpos mx * G) = Zpos mx * G)%Z)
    by (destruct sx; nia).
  rewrite S, S'.
  apply Z.mul_le_mono_pos_r with (p := B); [exact PB|].
  assert (F : (Z.abs (Zpos mr * H - Zpos mx * G) * B =
               G * Z.abs (Zpos mr * A * C - Zpos mx * B))%Z).
  { rewrite <- (Z.abs_eq B) at 1 by lia. rewrite <- (Z.abs_eq G) at 2 by lia.
    rewrite <- !Z.abs_mul. f_equal.
    replace ((Zpos mr * H - Zpos mx * G) * B)%Z
      with (Zpos mr * (H * B) - Zpos mx * G * B)%Z by ring.
    rewrite E. ring. }
  rewrite <- Z.mul_assoc, F.
  assert (G * (10 ^ 15 * Z.abs (Zpos mr * A * C - Zpos mx * B)) <=
          G * (Zpos mx * B))%Z by (apply Z.mul_le_mono_nonneg_l; lia).
  lia.
Qed.

(** C5 (as amended).  For every named unit that is a pure scale factor
    (the units of Length, Area and Speed, Kelvin and Rankine) and every
    [x] whose product with the unit and whose read-back value are normal
    floats, the accessor returns [x] within a relative tolerance of
    [10^-15].  At the tabulated temperatures the affine Celsius and
    Fahrenheit round trips stay within an absolute [10^-13]. *)
Theorem unit_round_trip :
  (forall U conv,
      In (U, conv) (lengthUnits ++ areaUnits ++ speedUnits ++ temperatureScaleUnits) ->
      forall x : float,
        normal (x * U) = true -> normal (conv (x * U)) = true ->
        within_rel (10 ^ 15) (conv (x * U)) x = true) /\
  forallb (fun c => within_abs (10 ^ 13)
             (Temperature.DegreesCelsius (Temperature.TemperatureFromDegreesCelsius c)) c)
          celsiusTable = true /\
  forallb (fun f => within_abs (10 ^ 13)
             (Temperature.DegreesFahrenheit (Temperature.TemperatureFromDegreesFahrenheit f)) f)
          fahrenheitTable = true.
Proof.
  split; [|split; vm_compute; reflexivity].
  intros U conv Hin x.
  cbn [lengthUnits areaUnits speedUnits temperatureScaleUnits app In] in Hin.
  repeat (destruct Hin as [Heq|Hin];
    [ injection Heq as <- <-;
      first [ exact (mul_div_round_trip x _)
            | unfold Length.Meters, Area.SquareMeters;
              rewrite <- (div_one (x * 1)) at 2 3;
              exact (mul_div_round_trip x 1) ]
    | ]).
  contradiction.
Qed.

Lemma unit_round_trip_witness :
  within_rel (10 ^ 15) (Length.Feet (2.5 * Foot)) 2.5 = true.
Proof.
  apply (proj1 unit_round_trip Foot Length.Feet);
    [ cbn [lengthUnits areaUnits speedUnits temperatureScaleUnits app In]; tauto
    | vm_compute; reflexivity
    | vm_compute; reflexivity ].
Defined.

(** C5, as stated, fails for a finite value whose product with the unit
    overflows, and for the affine units near zero. *)
Lemma unit_round_trip_counterexample :
  within_rel (10 ^ 15) (Length.Kilometers (1e308 * Kilometer)) 1e308 = false /\
  within_rel (10 ^ 13)
    (Temperature.DegreesCelsius (Temperature.TemperatureFromDegreesCelsius 0.01)) 0.01 = false.
Proof. split; vm_compute; reflexivity. Qed.

(** * Further properties of the package *)

(** ** What [format] returns *)

Lemma Length_formatScan_some l us v U :
  Length.formatScan l us = Some (v, U) ->
  In U us /\ (Length.Abs l >=? Length.length U) = true /\
  v = strconv.FormatFloat (l / Length.length U).
Proof.
  induction us as [|W us IH]; cbn [Length.formatScan]; [discriminate|].
  destruct (Length.Abs l >=? Length.length W) eqn:G.
  - intros [= <- <-]. repeat split; [left; reflexivity | exact G].
  - intros H. destruct (IH H) as (HI & HG & Hv). repeat split; [right|..]; assumption.
Qed.

Lemma Area_formatScan_some a us v U :
  Area.formatScan a us = Some (v, U) ->
  In U us /\ (Area.Abs a >=? Area.area U) = true /\
  v = strconv.FormatFloat (a / Area.area U).
Proof.
  induction us as [|W us IH]; cbn [Area.formatScan]; [discriminate|].
  destruct (Area.Abs a >=? Area.area W) eqn:G.
  - intros [= <- <-]. repeat split; [left; reflexivity | exact G].
  - intros H. destruct (IH H) as (HI & HG & Hv). repeat split; [right|..]; assumption.
Qed.

(** X1.  Whatever the value (NaN and the infinities included), [format] answers
    with a descriptor of the threshold list and with the rendering of the
    quotient of the value by that descriptor's scale. *)
Theorem format_in_list :
  (forall l : Length,
      exists U, In U Length.unitThresholds /\
                Length.format l = (strconv.FormatFloat (l / Length.length U), U) /\
                Length.String l =
                  (strconv.FormatFloat (l / Length.length U) ++ Length.symbol U)%string /\
                Length.GoString l =
                  (strconv.FormatFloat (l / Length.length U) ++ " * " ++ Length.name U)%string) /\
  (forall a : Area,
      exists U, In U Area.areaUnitThresholds /\
                Area.format a = (strconv.FormatFloat (a / Area.area U), U) /\
                Area.String a =
                  (strconv.FormatFloat (a / Area.area U) ++ Area.symbol U)%string /\
                Area.GoString a =
                  (strconv.FormatFloat (a / Area.area U) ++ " * " ++ Area.name U)%string).
Proof.
  split.
  - intros l.
    assert (M : In Length.meterDesc Length.unitThresholds) by (simpl; tauto).
    assert (E : exists U, In U Length.unitThresholds /\
                Length.format l = (strconv.FormatFloat (l / Length.length U), U)).
    { unfold Length.format.
      destruct (Length.Abs l >=? 1000 * Length.length Length.kmDesc).
      - exists Length.meterDesc. split; [exact M|reflexivity].
      - destruct (Length.formatScan l Length.unitThresholds) as [[v U]|] eqn:S.
        + apply Length_formatScan_some in S. destruct S as (HI & _ & ->).
          exists U. split; [exact HI|reflexivity].
        + exists Length.meterDesc. split; [exact M|reflexivity]. }
    destruct E as (U & HI & F). exists U.
    unfold Length.String, Length.GoString. rewrite F. repeat split. exact HI.
  - intros a.
    assert (M : In Area.squareMeterDesc Area.areaUnitThresholds) by (simpl; tauto).
    assert (B : strconv.FormatFloat (Area.SquareMeters a) =
                strconv.FormatFloat (a / Area.area Area.squareMeterDesc)).
    { unfold Area.SquareMeters. change (Area.area Area.squareMeterDesc) with 1.
      rewrite div_one. reflexivity. }
    assert (E : exists U, In U Area.areaUnitThresholds /\
                Area.format a = (strconv.FormatFloat (a / Area.area U), U)).
    { unfold Area.format, fmt.Sprintf_g.
      destruct (Area.Abs a >? 1000000 * Area.area Area.squareKmDesc).
      - exists Area.squareMeterDesc. split; [exact M|]. rewrite B. reflexivity.
      - destruct (Area.formatScan a Area.areaUnitThresholds) as [[v U]|] eqn:S.
        + apply Area_formatScan_some in S. destruct S as (HI & _ & ->).
          exists U. split; [exact HI|reflexivity].
        + exists Area.squareMeterDesc. split; [exact M|]. rewrite B. reflexivity. }
    destruct E as (U & HI & F). exists U.
    unfold Area.String, Area.GoString. rewrite F. repeat split. exact HI.
Qed.

(** ** The unit does not depend on the sign *)

Lemma Abs_opp_geb l u : (Length.Abs (- l) >=? u) = (Length.Abs l >=? u).
Proof.
  unfold geb. rewrite !leb_spec, !Abs_SF, opp_spec.
  destruct (Prim2SF l) as [[]|[]| |[] m e]; cbn [SFopp]; try reflexivity;
    destruct (Prim2SF u) as [[]|[]| |[] mu eu]; reflexivity.
Qed.

Lemma Abs_opp_gtb l u : (Length.Abs (- l) >? u) = (Length.Abs l >? u).
Proof.
  unfold gtb. rewrite !ltb_spec, !Abs_SF, opp_spec.
  destruct (Prim2SF l) as [[]|[]| |[] m e]; cbn [SFopp]; try reflexivity;
    destruct (Prim2SF u) as [[]|[]| |[] mu eu]; reflexivity.
Qed.

Lemma Length_formatScan_opp_unit l us :
  option_map snd (Length.formatScan (- l) us) = option_map snd (Length.formatScan l us).
Proof.
  induction us as [|U us IH]; cbn [Length.formatScan]; [reflexivity|].
  rewrite Abs_opp_geb. destruct (Length.Abs l >=? Length.length U); [reflexivity|exact IH].
Qed.

Lemma Area_formatScan_opp_unit a us :
  option_map snd (Area.formatScan (- a) us) = option_map snd (Area.formatScan a us).
Proof.
  induction us as [|U us IH]; cbn [Area.formatScan]; [reflexivity|].
  change (Area.Abs (- a)) with (Length.Abs (- a)). change (Area.Abs a) with (Length.Abs a).
  rewrite Abs_opp_geb. destruct (Length.Abs a >=? Area.area U); [reflexivity|exact IH].
Qed.

(** X2.  For every value, negating it leaves the unit chosen by [format]
    unchanged: the sign only shows in the rendered number. *)
Theorem format_unit_sign_independent :
  (forall l : Length, snd (Length.format (- l)) = snd (Length.format l)) /\
  (forall a : Area, snd (Area.format (- a)) = snd (Area.format a)).
Proof.
  split.
  - intros l. unfold Length.format. rewrite Abs_opp_geb.
    destruct (Length.Abs l >=? 1000 * Length.length Length.kmDesc); [reflexivity|].
    assert (H := Length_formatScan_opp_unit l Length.unitThresholds).
    destruct (Length.formatScan (- l) Length.unitThresholds) as [[v1 U1]|],
             (Length.formatScan l Length.unitThresholds) as [[v2 U2]|];
      cbn in H |- *; congruence.
  - intros a. unfold Area.format.
    change (Area.Abs (- a)) with (Length.Abs (- a)). change (Area.Abs a) with (Length.Abs a).
    rewrite Abs_opp_gtb.
    destruct (Length.Abs a >? 1000000 * Area.area Area.squareKmDesc); [reflexivity|].
    assert (H := Area_formatScan_opp_unit a Area.areaUnitThresholds).
    destruct (Area.formatScan (- a) Area.areaUnitThresholds) as [[v1 U1]|],
             (Area.formatScan a Area.areaUnitThresholds) as [[v2 U2]|];
      cbn in H |- *; congruence.
Qed.

(** ** Abs composed with itself *)

(** X3.  Abs is idempotent and returns its argument or the negation of its
    argument, for every float. *)
Theorem Abs_idempotent (x : float) :
  Length.Abs (Length.Abs x) = Length.Abs x /\
  (Length.Abs x = x \/ Length.Abs x = - x) /\
  Area.Abs (Area.Abs x) = Area.Abs x /\
  (Area.Abs x = x \/ Area.Abs x = - x).
Proof.
  assert (I : Length.Abs (Length.Abs x) = Length.Abs x).
  { apply Prim2SF_inj. rewrite !Abs_SF.
    destruct (Prim2SF x) as [[]|[]| |[] m e]; reflexivity. }
  assert (C : Length.Abs x = x \/ Length.Abs x = - x).
  { unfold Length.Abs. destruct (x <? 0); [right|left]; reflexivity. }
  repeat split; assumption.
Qed.

(** ** Accessors *)

(** X4.  Every scale accessor commutes with negation. *)
Theorem accessors_odd :
  forall U conv,
    In (U, conv) (lengthUnits ++ areaUnits ++ speedUnits ++ temperatureScaleUnits) ->
    forall x : float, conv (- x) = - conv x.
Proof.
  intros U conv Hin x.
  cbn [lengthUnits areaUnits speedUnits temperatureScaleUnits app In] in Hin.
  repeat (destruct Hin as [Heq|Hin];
    [ injection Heq as <- <-; first [ reflexivity | apply div_opp_l ] | ]).
  contradiction.
Qed.

Lemma accessors_odd_witness :
  Length.Miles (- (3 * Mile)) = - Length.Miles (3 * Mile) /\
  Temperature.DegreesRankine (- (491.67 * Rankine)) =
    - Temperature.DegreesRankine (491.67 * Rankine).
Proof.
  split.
  - apply (accessors_odd Mile Length.Miles).
    cbn [lengthUnits areaUnits speedUnits temperatureScaleUnits app In]. tauto.
  - apply (accessors_odd Rankine Temperature.DegreesRankine).
    cbn [lengthUnits areaUnits speedUnits temperatureScaleUnits app In]. tauto.
Defined.

(** X5.  The round trip through the base unit is exact for every float, NaN and
    the infinities included. *)
Theorem base_unit_round_trip (x : float) :
  Length.Meters (x * Meter) = x /\
  Area.SquareMeters (x * SquareMeter) = x /\
  Speed.MetersPerSecond (x * MeterPerSecond) = x /\
  Temperature.Kelvin_ (Temperature.temperatureFromKelvin x) = x.
Proof.
  unfold Length.Meters, Area.SquareMeters, Speed.MetersPerSecond, Temperature.Kelvin_,
    Temperature.temperatureFromKelvin.
  change Meter with 1. change SquareMeter with 1.
  change MeterPerSecond with 1. change Kelvin with 1.
  rewrite ?div_one, !mul_one. repeat split.
Qed.

(** ** Negative speeds and temperatures *)

(** X6.  For a finite Speed or Temperature with a clear sign bit, negating the
    value prepends one minus sign to [String()] and [GoString()]. *)
Theorem single_unit_sign_symmetry (x : float) :
  (x >=? 0) = true -> Signbit x = false -> IsInf x = false ->
  Speed.String (- x) = ("-" ++ Speed.String x)%string /\
  Speed.GoString (- x) = ("-" ++ Speed.GoString x)%string /\
  Temperature.String (- x) = ("-" ++ Temperature.String x)%string /\
  Temperature.GoString (- x) = ("-" ++ Temperature.GoString x)%string.
Proof.
  intros H0 Hs Hi.
  assert (Q := plain_nonneg_cases x H0 Hs Hi).
  unfold Speed.String, Speed.GoString, Temperature.String, Temperature.GoString,
    Speed.MetersPerSecond, Temperature.Kelvin_, fmt.Sprintf_g, fmt.Sprintf_v.
  change MeterPerSecond with 1. change Kelvin with 1.
  rewrite !div_one, (FormatFloat_opp x Q). repeat split.
Qed.

Lemma single_unit_sign_symmetry_witness :
  Speed.String (- (0.001 * MeterPerSecond)) = "-0.001 m/s"%string /\
  Temperature.GoString (- (294.15 * Kelvin)) = "-294.15 * Kelvin"%string.
Proof.
  destruct (single_unit_sign_symmetry (0.001 * MeterPerSecond) eq_refl eq_refl eq_refl)
    as (H1 & _ & _ & _).
  destruct (single_unit_sign_symmetry (294.15 * Kelvin) eq_refl eq_refl eq_refl)
    as (_ & _ & _ & H2).
  split; [rewrite H1 | rewrite H2]; vm_compute; reflexivity.
Defined.

(** ** Unit selection for Area *)

Lemma Area_formatScan_first a pre U post :
  (Area.Abs a >=? Area.area U) = true ->
  (forall V, In V pre -> (Area.Abs a >=? Area.area V) = false) ->
  Area.formatScan a (pre ++ U :: post) = Some (fmt.Sprintf_v (a / Area.area U), U).
Proof.
  intros HU. induction pre as [|V pre IH]; intros Hpre; cbn [app Area.formatScan].
  - rewrite HU. reflexivity.
  - rewrite (Hpre V (or_introl eq_refl)). apply IH.
    intros W HW. apply Hpre. right. exact HW.
Qed.

Lemma Area_formatScan_none a us :
  (forall V, In V us -> (Area.Abs a >=? Area.area V) = false) ->
  Area.formatScan a us = None.
Proof.
  induction us as [|V us IH]; intros H; cbn [Area.formatScan]; [reflexivity|].
  rewrite (H V (or_introl eq_refl)). apply IH.
  intros W HW. apply H. right. exact HW.
Qed.

Lemma areaUnitThresholds_descending :
  StronglySorted (fun a b => (Area.area a >? Area.area b) = true) Area.areaUnitThresholds.
Proof.
  unfold Area.areaUnitThresholds.
  repeat (apply SSorted_cons; [|repeat (apply Forall_cons; [reflexivity|]); apply Forall_nil]).
  apply SSorted_nil.
Qed.

(** X7.  Up to 1,000,000 km^2 inclusive, [Area.format] picks the first unit of
    the descending list {km^2, m^2, cm^2, mm^2} whose scale the magnitude
    reaches, which is the largest such unit; it falls back to square meters
    in compact notation exactly when the magnitude is below 1 mm^2. *)
Theorem Area_format_best_fit (a : Area) :
  (Area.Abs a <=? 1000000 * SquareKilometer) = true ->
  StronglySorted (fun x y => (Area.area x >? Area.area y) = true) Area.areaUnitThresholds /\
  (forall pre U post,
      Area.areaUnitThresholds = pre ++ U :: post ->
      (Area.Abs a >=? Area.area U) = true ->
      (forall V, In V pre -> (Area.Abs a >=? Area.area V) = false) ->
      Area.format a = (fmt.Sprintf_v (a / Area.area U), U) /\
      Area.String a = (fmt.Sprintf_v (a / Area.area U) ++ Area.symbol U)%string /\
      (forall V, In V Area.areaUnitThresholds ->
                 (Area.Abs a >=? Area.area V) = true ->
                 (Area.area V <=? Area.area U) = true)) /\
  ((Area.Abs a <? SquareMillimeter) = true <->
   (forall V, In V Area.areaUnitThresholds -> (Area.Abs a >=? Area.area V) = false)) /\
  ((Area.Abs a <? SquareMillimeter) = true ->
   Area.format a = (fmt.Sprintf_g a, Area.squareMeterDesc) /\
   Area.String a = (fmt.Sprintf_g a ++ "m^2")%string).
Proof.
  intros Hle.
  assert (G : (Area.Abs a >? 1000000 * Area.area Area.squareKmDesc) = false)
    by (apply leb_gtb_false; exact Hle).
  assert (Hn : is_nan (Area.Abs a) = false).
  { apply not_nan_spec. intros E. rewrite leb_spec, E in Hle. discriminate. }
  assert (Small : (Area.Abs a <? SquareMillimeter) = true ->
                  forall V, In V Area.areaUnitThresholds ->
                            (Area.Abs a >=? Area.area V) = false).
  { intros Hs V HV. apply ltb_geb_false.
    apply ltb_geb_trans with (b := SquareMillimeter); [exact Hs|].
    unfold geb. simpl in HV.
    repeat (destruct HV as [<-|HV]; [reflexivity|]). contradiction. }
  split; [exact areaUnitThresholds_descending|]. split; [|split].
  - intros pre U post Hsplit HU Hpre.
    assert (F : Area.format a = (fmt.Sprintf_v (a / Area.area U), U)).
    { unfold Area.format. rewrite G, Hsplit, Area_formatScan_first by assumption. reflexivity. }
    unfold Area.String. rewrite F.
    repeat split.
    intros V HV HVge. rewrite Hsplit in HV.
    apply in_app_or in HV. destruct HV as [HV|[<-|HV]].
    + rewrite (Hpre V HV) in HVge. discriminate.
    + apply leb_refl.
      assert (HU' : In U Area.areaUnitThresholds)
        by (rewrite Hsplit; apply in_or_app; right; left; reflexivity).
      simpl in HU'. repeat (destruct HU' as [<-|HU']; [reflexivity|]). contradiction.
    + apply gtb_leb.
      assert (S := areaUnitThresholds_descending). rewrite Hsplit in S.
      exact (sorted_after _ pre U post S V HV).
  - split; [exact Small|].
    intros H. apply geb_false_ltb; [exact Hn | reflexivity |].
    apply (H {| Area.area := SquareMillimeter; Area.name := "SquareMillimeter";
                Area.symbol := "mm^2" |}).
    simpl. tauto.
  - intros Hs.
    assert (F : Area.format a = (fmt.Sprintf_g a, Area.squareMeterDesc)).
    { unfold Area.format. rewrite G, Area_formatScan_none by (apply Small; exact Hs).
      reflexivity. }
    unfold Area.String. rewrite F. repeat split.
Qed.

Lemma Area_format_best_fit_witness :
  Area.format (1234.56 * SquareCentimeter) =
    (fmt.Sprintf_v (1234.56 * SquareCentimeter / SquareCentimeter),
     {| Area.area := SquareCentimeter; Area.name := "SquareCentimeter";
        Area.symbol := "cm^2" |}) /\
  Area.format (0.9 * SquareMillimeter) =
    (fmt.Sprintf_g (0.9 * SquareMillimeter), Area.squareMeterDesc).
Proof.
  destruct (Area_format_best_fit (1234.56 * SquareCentimeter) eq_refl) as (_ & H & _).
  destruct (Area_format_best_fit (0.9 * SquareMillimeter) eq_refl) as (_ & _ & _ & K).
  split.
  - refine (proj1 (H [Area.squareKmDesc; Area.squareMeterDesc] _ _ eq_refl eq_refl _)).
    intros V [<-|[<-|[]]]; reflexivity.
  - exact (proj1 (K eq_refl)).
Defined.

(** ** The sign in the rendering of an Area *)

Lemma SFleb_finite_exp m e m0 e0 :
  SFleb (S754_finite false m e) (S754_finite false m0 e0) = true -> (e <= e0)%Z.
Proof.
  unfold SFleb, SFcompare. destruct (Z.compare_spec e e0); intros Hc; try lia; discriminate.
Qed.

Lemma gtb_false_leb a b :
  is_nan a = false -> is_nan b = false -> (a >? b) = false -> (a <=? b) = true.
Proof.
  unfold gtb. rewrite !not_nan_spec, ltb_spec, leb_spec. intros Ha Hb H.
  destruct (SFleb (Prim2SF a) (Prim2SF b)) eqn:L; [reflexivity|].
  apply SFleb_total in L; [congruence | assumption | assumption].
Qed.

Lemma Area_scan_quotient_plain x m e u :
  Prim2SF x = S754_finite false m e ->
  (x <=? 1000000 * Area.area Area.squareKmDesc) = true ->
  In u Area.areaUnitThresholds ->
  plain_nonneg (Prim2SF (x / Area.area u)).
Proof.
  intros E Hle Hu.
  assert (B := Prim2SF_bounded _ _ _ _ E).
  unfold bounded, canonical_mantissa, fexp in B. rewrite emin_value in B.
  change prec with 53%Z in B.
  apply andb_prop in B. destruct B as [C _]. apply Z.eqb_eq in C.
  rewrite leb_spec, E in Hle.
  change (Prim2SF (1000000 * Area.area Area.squareKmDesc))
    with (S754_finite false 8192000000000000 (-13)) in Hle.
  assert (He : (e <= -13)%Z) by (eapply SFleb_finite_exp; exact Hle).
  rewrite div_spec, E. unfold plain_nonneg.
  simpl in Hu.
  repeat (destruct Hu as [<-|Hu];
    [ match goal with
      | |- context [Prim2SF ?c] =>
          let v := eval vm_compute in (Prim2SF c) in change (Prim2SF c) with v
      end;
      match goal with
      | |- context [SF64div _ (S754_finite false ?my ?ey)] =>
          let d := eval vm_compute in (digits2_pos my) in
          assert (Hd : digits2_pos my = d) by (vm_compute; reflexivity);
          apply SFdiv_pos_no_overflow; rewrite ?Hd; lia
      end
    | ]).
  contradiction.
Qed.

Lemma Area_formatScan_opp x us :
  Area.Abs (- x) = Area.Abs x ->
  (forall u, In u us -> plain_nonneg (Prim2SF (x / Area.area u))) ->
  Area.formatScan (- x) us =
  option_map (fun r => (("-" ++ fst r)%string, snd r)) (Area.formatScan x us).
Proof.
  intros HA. induction us as [|u us IH]; intros H; cbn [Area.formatScan option_map];
    [reflexivity|].
  rewrite HA. destruct (Area.Abs x >=? Area.area u) eqn:G.
  - cbn [option_map fst snd]. unfold fmt.Sprintf_v.
    rewrite div_opp_l, FormatFloat_opp; [reflexivity|].
    apply H. left. reflexivity.
  - apply IH. intros v Hv. apply H. right. exact Hv.
Qed.

Lemma Area_format_opp x :
  plain_nonneg (Prim2SF x) ->
  Area.format (- x) = (("-" ++ fst (Area.format x))%string, snd (Area.format x)).
Proof.
  intros [E | (m & e & E)].
  - replace x with 0 by (apply Prim2SF_inj; rewrite E; reflexivity).
    vm_compute. reflexivity.
  - assert (P : (0 <? x) = true).
    { rewrite ltb_spec, E. reflexivity. }
    destruct (Abs_pos x P) as [A1 A2].
    assert (Q : plain_nonneg (Prim2SF x)) by (right; eauto).
    unfold Area.format. change Area.Abs with Length.Abs. rewrite A1, A2.
    unfold fmt.Sprintf_g, Area.SquareMeters.
    destruct (x >? 1000000 * Area.area Area.squareKmDesc) eqn:G.
    + cbn [fst snd]. rewrite FormatFloat_opp by exact Q. reflexivity.
    + assert (Hle : (x <=? 1000000 * Area.area Area.squareKmDesc) = true).
      { apply gtb_false_leb; [|reflexivity|exact G].
        apply not_nan_spec. rewrite E. discriminate. }
      rewrite Area_formatScan_opp.
      * destruct (Area.formatScan x Area.areaUnitThresholds) as [[v d]|];
          cbn [option_map fst snd]; [reflexivity|].
        rewrite FormatFloat_opp by exact Q. reflexivity.
      * change Area.Abs with Length.Abs. rewrite A1, A2. reflexivity.
      * intros u Hu. eapply Area_scan_quotient_plain; eassumption.
Qed.

(** X8.  For every finite Area with a clear sign bit (a positive value or +0),
    negating the value prepends one minus sign to [String()] and to
    [GoString()]. *)
Theorem Area_String_sign_symmetry (x : Area) :
  (x >=? 0) = true -> Signbit x = false -> IsInf x = false ->
  Area.String (- x) = ("-" ++ Area.String x)%string /\
  Area.GoString (- x) = ("-" ++ Area.GoString x)%string.
Proof.
  intros H0 Hs Hi.
  assert (F := Area_format_opp x (plain_nonneg_cases x H0 Hs Hi)).
  unfold Area.String, Area.GoString. rewrite F.
  destruct (Area.format x) as [v d]. split; reflexivity.
Qed.

Lemma Area_String_sign_symmetry_witness :
  Area.String (- (673.4 * SquareKilometer)) = "-673.4km^2"%string /\
  Area.GoString (- (673.4 * SquareKilometer)) = "-673.4 * SquareKilometer"%string.
Proof.
  destruct (Area_String_sign_symmetry (673.4 * SquareKilometer) eq_refl eq_refl eq_refl)
    as [H1 H2].
  split; [rewrite H1 | rewrite H2]; vm_compute; reflexivity.
Defined.

(** ** The rendered number is at least 1 *)

(** On valid positive floats the order of [SFcompare] is the order of the
    values. *)
Lemma valid_leb_value mu eu mx ex :
  bounded prec emax mu eu = true -> bounded prec emax mx ex = true ->
  SFleb (S754_finite false mu eu) (S754_finite false mx ex) = true ->
  (eu <= ex)%Z /\ (Zpos mu <= Zpos mx * 2 ^ (ex - eu))%Z.
Proof.
  unfold bounded, canonical_mantissa, fexp. rewrite emin_value. change prec with 53%Z.
  intros Bu Bx. apply andb_prop in Bu, Bx.
  destruct Bu as [Cu _], Bx as [Cx _]. apply Z.eqb_eq in Cu, Cx.
  assert (Du := digits2_bounds mu). assert (Dx := digits2_bounds mx).
  unfold SFleb, SFcompare. destruct (Z.compare_spec eu ex) as [->|L|G].
  - change (Pos.compare_cont Eq mu mx) with (Pos.compare mu mx).
    rewrite Z.sub_diag, Z.pow_0_r.
    destruct (Pos.compare_spec mu mx); intros Hc; try discriminate; split; lia.
  - intros _. split; [lia|].
    assert (Zpos (digits2_pos mx) = 53)%Z by lia.
    assert (Zpos (digits2_pos mu) <= 53)%Z by lia.
    assert (2 ^ Zpos (digits2_pos mu) <= 2 ^ 53)%Z by (apply Z.pow_le_mono_r; lia).
    assert (2 ^ 1 <= 2 ^ (ex - eu))%Z by (apply Z.pow_le_mono_r; lia).
    replace (Zpos (digits2_pos mx) - 1)%Z with 52%Z in Dx by lia.
    change (2 ^ 52)%Z with 4503599627370496%Z in Dx.
    change (2 ^ 53)%Z with 9007199254740992%Z in *.
    change (2 ^ 1)%Z with 2%Z in *. nia.
  - discriminate.
Qed.

(** [m * 2^e >= 1], without leaving the integers. *)
Lemma grid_ge_one m e :
  ((e <= 0 -> 2 ^ (- e) <= m) /\ (0 < e -> 1 <= m))%Z ->
  let e1 := Z.max e (fexp prec emax (Zdigits2 m + e)) in
  ((e1 <= 0 -> 2 ^ (- e1) <= m / 2 ^ (e1 - e)) /\ (0 < e1 -> 1 <= m / 2 ^ (e1 - e)))%Z.
Proof.
  intros [P1 P2] e1.
  assert (Hm : (1 <= m)%Z).
  { destruct (Z.le_gt_cases e 0) as [L|G]; [|auto].
    assert (0 < 2 ^ (- e))%Z by (apply Z.pow_pos_nonneg; lia). specialize (P1 L). lia. }
  assert (D := Zdigits2_bounds m ltac:(lia)).
  assert (Pw : (0 < 2 ^ (e1 - e))%Z) by (apply Z.pow_pos_nonneg; lia).
  split; intros H.
  - apply Z.div_le_lower_bound; [exact Pw|].
    rewrite <- Z.pow_add_r by lia.
    replace (e1 - e + - e1)%Z with (- e)%Z by lia. apply P1. lia.
  - apply Z.div_le_lower_bound; [exact Pw|]. rewrite Z.mul_1_r.
    destruct (Z.eq_dec e1 e) as [->|N].
    + rewrite Z.sub_diag. change (2 ^ 0)%Z with 1%Z. exact Hm.
    + assert (E1 : e1 = (Zdigits2 m + e - 53)%Z).
      { subst e1. unfold fexp in *. rewrite emin_value in *. change prec with 53%Z in *. lia. }
      eapply Z.le_trans; [|exact (proj1 D)].
      apply Z.pow_le_mono_r; lia.
Qed.

(** The quotient of a positive finite float by a smaller positive finite
    float is at least 1 (rounding never takes it below). *)
Lemma div_ge_one x u mx ex mu eu :
  Prim2SF x = S754_finite false mx ex ->
  Prim2SF u = S754_finite false mu eu ->
  (u <=? x) = true -> (1 <=? x / u) = true.
Proof.
  intros EX EU. rewrite !leb_spec, EX, EU. intros Hle.
  assert (V := Prim2SF_valid (x / u)). rewrite div_spec, EX, EU in V.
  rewrite div_spec, EX, EU.
  change (Prim2SF 1) with (S754_finite false 4503599627370496 (-52)).
  destruct (valid_leb_value mu eu mx ex (Prim2SF_bounded _ _ _ _ EU)
              (Prim2SF_bounded _ _ _ _ EX) Hle) as [Hex Hval].
  assert (Du := digits2_bounds mu). assert (Dx := digits2_bounds mx).
  unfold SF64div, SFdiv, SFdiv_core_binary in *.
  change (Zdigits2 (Zpos mx)) with (Zpos (digits2_pos mx)) in *.
  change (Zdigits2 (Zpos mu)) with (Zpos (digits2_pos mu)) in *.
  set (d1 := Zpos (digits2_pos mx)) in *. set (d2 := Zpos (digits2_pos mu)) in *.
  set (e' := Z.min (fexp prec emax (d1 + ex - (d2 + eu))) (ex - eu)) in *.
  assert (He' : (e' <= ex - eu)%Z) by (subst e'; lia).
  set (m' := match (ex - eu - e')%Z with
             | Z0 => Zpos mx | Zpos _ => Z.shiftl (Zpos mx) (ex - eu - e') | Zneg _ => 0%Z
             end) in *.
  assert (Hm' : m' = (Zpos mx * 2 ^ (ex - eu - e'))%Z).
  { subst m'. destruct (ex - eu - e')%Z as [|p|p] eqn:Es; try lia.
    rewrite Z.shiftl_mul_pow2 by lia. reflexivity. }
  rewrite div_eucl_div_mod in *. cbv beta iota zeta in *.
  set (q := (m' / Zpos mu)%Z) in *.
  assert (Ps : (0 < 2 ^ (ex - eu - e'))%Z) by (apply Z.pow_pos_nonneg; lia).
  assert (Q0 : (0 <= q)%Z) by (apply Z.div_pos; lia).
  (* the truncated quotient is at least 1 on its grid *)
  assert (PQ : ((e' <= 0 -> 2 ^ (- e') <= q) /\ (0 < e' -> 1 <= q))%Z).
  { split; intros H; apply Z.div_le_lower_bound; try lia.
    - rewrite Hm'.
      replace (ex - eu - e')%Z with ((ex - eu) + - e')%Z by lia.
      rewrite Z.pow_add_r by lia.
      assert (0 < 2 ^ (- e'))%Z by (apply Z.pow_pos_nonneg; lia). nia.
    - rewrite Z.mul_1_r, Hm'.
      assert (F : (53 + e' <= d1 + ex - (d2 + eu))%Z).
      { subst e'. unfold fexp in *. rewrite emin_value in *. change prec with 53%Z in *. lia. }
      assert (2 ^ d2 <= 2 ^ (d1 - 1 + (ex - eu - e')))%Z
        by (apply Z.pow_le_mono_r; lia).
      rewrite Z.pow_add_r in * by (subst d1; lia). nia. }
  destruct (binary_round_aux_shape false q e' (new_location (Zpos mu) (m' mod Zpos mu)) Q0)
    as [m1 [B E]].
  change (xorb false false) with false in *.
  rewrite E in V |- *. clear E.
  set (e1 := Z.max e' (fexp prec emax (Zdigits2 q + e'))) in *.
  set (e2 := Z.max e1 (fexp prec emax (Zdigits2 m1 + e1))) in *.
  assert (G1 := grid_ge_one q e' PQ). fold e1 in G1. cbv zeta in G1.
  assert (PM : ((e1 <= 0 -> 2 ^ (- e1) <= m1) /\ (0 < e1 -> 1 <= m1))%Z).
  { destruct G1 as [G1a G1b]. split; intros H; [specialize (G1a H)|specialize (G1b H)]; lia. }
  assert (G2 := grid_ge_one m1 e1 PM). fold e2 in G2. cbv zeta in G2.
  destruct G2 as [G2a G2b].
  assert (He12 : (e1 <= e2)%Z) by (subst e2; apply Z.le_max_l).
  clearbody e2 e1. clear G1 B PQ Hm' Hval Du Dx.
  destruct (m1 / 2 ^ (e2 - e1))%Z as [|p|p] eqn:Q2.
  - exfalso. destruct (Z.le_gt_cases e2 0) as [L|G].
    + specialize (G2a L). assert (0 < 2 ^ (- e2))%Z by (apply Z.pow_pos_nonneg; lia). lia.
    + specialize (G2b G). lia.
  - destruct (e2 <=? emax - prec)%Z; [|reflexivity].
    cbn [valid_binary] in V. unfold bounded, canonical_mantissa, fexp in V.
    rewrite emin_value in V. change prec with 53%Z in V.
    apply andb_prop in V. destruct V as [C _]. apply Z.eqb_eq in C.
    assert (Dp := digits2_bounds p).
    assert (Hd : (Zpos (digits2_pos p) <= 53)%Z) by lia.
    assert (Hp : (Zpos p < 2 ^ 53)%Z).
    { eapply Z.lt_le_trans; [exact (proj2 Dp)|]. apply Z.pow_le_mono_r; lia. }
    unfold SFleb, SFcompare.
    destruct (Z.compare_spec (-52) e2) as [Ee|L|G]; [|reflexivity|].
    + change (Pos.compare_cont Eq 4503599627370496 p) with (Pos.compare 4503599627370496 p).
      destruct (Pos.compare_spec 4503599627370496 p) as [|Hc|Hc]; try reflexivity.
      exfalso. subst e2.
      assert (L0 : (-52 <= 0)%Z) by (intro X; discriminate X).
      specialize (G2a L0).
      change (2 ^ (- -52))%Z with 4503599627370496%Z in G2a.
      apply Pos2Z.pos_lt_pos in Hc. clear - G2a Hc.
      exact (Z.lt_irrefl _ (Z.lt_le_trans _ _ _ Hc G2a)).
    + exfalso.
      assert (L0 : (e2 <= 0)%Z) by (clear - G; lia).
      specialize (G2a L0).
      assert (2 ^ 53 <= 2 ^ (- e2))%Z by (apply Z.pow_le_mono_r; clear - G; lia).
      clear - G2a Hp H. lia.
  - exfalso. assert (0 <= m1 / 2 ^ (e2 - e1))%Z.
    { apply Z.div_pos; [|apply Z.pow_pos_nonneg; lia].
      destruct PM as [A1 A2]. destruct (Z.le_gt_cases e1 0) as [L|G].
      - specialize (A1 L). assert (0 < 2 ^ (- e1))%Z by (apply Z.pow_pos_nonneg; lia). lia.
      - specialize (A2 G). lia. }
    lia.
Qed.

Lemma Abs_ge_one r :
  (1 <=? r) = true ->
  (Length.Abs r >=? 1) = true /\ (Length.Abs (- r) >=? 1) = true.
Proof.
  unfold geb. rewrite !leb_spec, !Abs_SF, opp_spec.
  change (Prim2SF 1) with (S754_finite false 4503599627370496 (-52)).
  destruct (Prim2SF r) as [[]|[]| |[] m e]; unfold SFleb at 1, SFcompare at 1;
    try discriminate; intros H; cbn [SFopp]; split; exact H || reflexivity.
Qed.

(** Whenever the magnitude reaches a positive finite scale, the quotient by
    that scale has magnitude at least 1. *)
Lemma Abs_quotient_ge_one x u :
  (0 <? u) = true -> IsInf u = false ->
  (Length.Abs x >=? u) = true -> (Length.Abs (x / u) >=? 1) = true.
Proof.
  unfold IsInf, geb at 1. rewrite ltb_spec, leb_spec, Abs_SF.
  change (Prim2SF 0) with (S754_zero false).
  destruct (Prim2SF u) as [[]|[]| |[] mu eu] eqn:EU; try discriminate. intros _ _.
  destruct (Prim2SF x) as [[]|[]| |[] mx ex] eqn:EX; try discriminate; intros H.
  - (* -Inf *)
    unfold geb. rewrite leb_spec, Abs_SF, div_spec, EX, EU. reflexivity.
  - (* +Inf *)
    unfold geb. rewrite leb_spec, Abs_SF, div_spec, EX, EU. reflexivity.
  - (* negative finite *)
    assert (EY : Prim2SF (- x) = S754_finite false mx ex) by (rewrite opp_spec, EX; reflexivity).
    assert (L : (u <=? - x) = true) by (rewrite leb_spec, EU, EY; exact H).
    assert (G := div_ge_one (- x) u mx ex mu eu EY EU L).
    rewrite div_opp_l in G.
    destruct (Abs_ge_one _ G) as [_ G2]. rewrite opp_involutive in G2. exact G2.
  - assert (L : (u <=? x) = true) by (rewrite leb_spec, EU, EX; exact H).
    exact (proj1 (Abs_ge_one _ (div_ge_one x u mx ex mu eu EX EU L))).
Qed.

Lemma Length_formatScan_none_inv l us :
  Length.formatScan l us = None ->
  forall V, In V us -> (Length.Abs l >=? Length.length V) = false.
Proof.
  induction us as [|W us IH]; cbn [Length.formatScan]; intros H V HV; [contradiction|].
  destruct (Length.Abs l >=? Length.length W) eqn:G; [discriminate|].
  destruct HV as [<-|HV]; [exact G | exact (IH H V HV)].
Qed.

Lemma Area_formatScan_none_inv a us :
  Area.formatScan a us = None ->
  forall V, In V us -> (Area.Abs a >=? Area.area V) = false.
Proof.
  induction us as [|W us IH]; cbn [Area.formatScan]; intros H V HV; [contradiction|].
  destruct (Area.Abs a >=? Area.area W) eqn:G; [discriminate|].
  destruct HV as [<-|HV]; [exact G | exact (IH H V HV)].
Qed.

(** X9.  From one micrometer up to (not including) 1000 km, the number that
    [Length.format] renders has magnitude at least 1: the value is never
    shown with a leading zero, as in 0.2km. *)
Theorem Length_rendered_ge_one (l : Length) :
  (Length.Abs l <? 1000 * Kilometer) = true ->
  (Length.Abs l >=? Micrometer) = true ->
  exists U, In U Length.unitThresholds /\
            Length.format l = (strconv.FormatFloat (l / Length.length U), U) /\
            (Length.Abs (l / Length.length U) >=? 1) = true.
Proof.
  intros Hlt Hge. unfold Length.format.
  change (Length.length Length.kmDesc) with Kilometer.
  rewrite (ltb_geb_false _ _ Hlt).
  destruct (Length.formatScan l Length.unitThresholds) as [[v U]|] eqn:S.
  - apply Length_formatScan_some in S. destruct S as (HI & HG & ->).
    exists U. repeat split; [exact HI|].
    apply Abs_quotient_ge_one; [| |exact HG];
      simpl in HI; repeat (destruct HI as [<-|HI]; [reflexivity|]); contradiction.
  - exfalso.
    assert (F := Length_formatScan_none_inv l _ S
                   {| Length.length := Micrometer; Length.name := "Micrometer";
                      Length.symbol := "µm" |} ltac:(simpl; tauto)).
    cbn [Length.length] in F. congruence.
Qed.

Lemma Length_rendered_ge_one_witness :
  exists U, In U Length.unitThresholds /\
            Length.format (0.2 * Kilometer) =
              (strconv.FormatFloat (0.2 * Kilometer / Length.length U), U) /\
            (Length.Abs (0.2 * Kilometer / Length.length U) >=? 1) = true.
Proof. exact (Length_rendered_ge_one (0.2 * Kilometer) eq_refl eq_refl). Defined.

(** X10.  From one square millimeter up to 1,000,000 km^2 inclusive, the number
    that [Area.format] renders has magnitude at least 1. *)
Theorem Area_rendered_ge_one (a : Area) :
  (Area.Abs a <=? 1000000 * SquareKilometer) = true ->
  (Area.Abs a >=? SquareMillimeter) = true ->
  exists U, In U Area.areaUnitThresholds /\
            Area.format a = (strconv.FormatFloat (a / Area.area U), U) /\
            (Area.Abs (a / Area.area U) >=? 1) = true.
Proof.
  intros Hle Hge. unfold Area.format.
  change (Area.area Area.squareKmDesc) with SquareKilometer.
  rewrite (leb_gtb_false _ _ Hle).
  destruct (Area.formatScan a Area.areaUnitThresholds) as [[v U]|] eqn:S.
  - apply Area_formatScan_some in S. destruct S as (HI & HG & ->).
    exists U. repeat split; [exact HI|].
    change Area.Abs with Length.Abs in *.
    apply Abs_quotient_ge_one; [| |exact HG];
      simpl in HI; repeat (destruct HI as [<-|HI]; [reflexivity|]); contradiction.
  - exfalso.
    assert (F := Area_formatScan_none_inv a _ S
                   {| Area.area := SquareMillimeter; Area.name := "SquareMillimeter";
                      Area.symbol := "mm^2" |} ltac:(simpl; tauto)).
    cbn [Area.area] in F. congruence.
Qed.

Lemma Area_rendered_ge_one_witness :
  exists U, In U Area.areaUnitThresholds /\
            Area.format (0.2 * SquareKilometer) =
              (strconv.FormatFloat (0.2 * SquareKilometer / Area.area U), U) /\
            (Area.Abs (0.2 * SquareKilometer / Area.area U) >=? 1) = true.
Proof. exact (Area_rendered_ge_one (0.2 * SquareKilometer) eq_refl eq_refl). Defined.

(** ** A larger magnitude never gets a smaller unit *)

Lemma leb_trans a b c : (a <=? b) = true -> (b <=? c) = true -> (a <=? c) = true.
Proof.
  rewrite !leb_spec. intros H1 H2.
  destruct (SFleb (Prim2SF a) (Prim2SF c)) eqn:L; [reflexivity|exfalso].
  assert (Na : Prim2SF a <> S754_nan).
  { intros E. rewrite E in H1. discriminate. }
  assert (Nc : Prim2SF c <> S754_nan).
  { intros E. rewrite E, SFleb_nan_r in H2. discriminate. }
  apply SFleb_total in L; [|assumption|assumption].
  assert (T := SFltb_leb_trans _ _ _ L H1).
  apply SFltb_leb_false in T. congruence.
Qed.

Lemma leb_not_nan_l a b : (a <=? b) = true -> is_nan a = false.
Proof.
  rewrite leb_spec, not_nan_spec. intros H E. rewrite E in H. discriminate.
Qed.

Lemma Length_formatScan_monotone us :
  StronglySorted (fun a b => (Length.length a >? Length.length b) = true) us ->
  forall l1 l2 v1 U1 v2 U2,
    (Length.Abs l1 <=? Length.Abs l2) = true ->
    Length.formatScan l1 us = Some (v1, U1) ->
    Length.formatScan l2 us = Some (v2, U2) ->
    (Length.length U1 <=? Length.length U2) = true.
Proof.
  induction us as [|W us IH]; intros S l1 l2 v1 U1 v2 U2 Hle; cbn [Length.formatScan];
    [discriminate|].
  apply StronglySorted_inv in S. destruct S as [S F]. rewrite Forall_forall in F.
  destruct (Length.Abs l2 >=? Length.length W) eqn:G2.
  - intros H1 [= <- <-].
    destruct (Length.Abs l1 >=? Length.length W) eqn:G1.
    + injection H1 as <- <-. apply leb_refl. exact (leb_not_nan_l _ _ G1).
    + apply Length_formatScan_some in H1. destruct H1 as (HI & _ & _).
      apply gtb_leb. apply F. exact HI.
  - destruct (Length.Abs l1 >=? Length.length W) eqn:G1.
    + exfalso. unfold geb in *. rewrite (leb_trans _ _ _ G1 Hle) in G2. discriminate.
    + intros H1 H2. exact (IH S l1 l2 v1 U1 v2 U2 Hle H1 H2).
Qed.

Lemma Area_formatScan_monotone us :
  StronglySorted (fun a b => (Area.area a >? Area.area b) = true) us ->
  forall l1 l2 v1 U1 v2 U2,
    (Area.Abs l1 <=? Area.Abs l2) = true ->
    Area.formatScan l1 us = Some (v1, U1) ->
    Area.formatScan l2 us = Some (v2, U2) ->
    (Area.area U1 <=? Area.area U2) = true.
Proof.
  induction us as [|W us IH]; intros S l1 l2 v1 U1 v2 U2 Hle; cbn [Area.formatScan];
    [discriminate|].
  apply StronglySorted_inv in S. destruct S as [S F]. rewrite Forall_forall in F.
  destruct (Area.Abs l2 >=? Area.area W) eqn:G2.
  - intros H1 [= <- <-].
    destruct (Area.Abs l1 >=? Area.area W) eqn:G1.
    + injection H1 as <- <-. apply leb_refl. exact (leb_not_nan_l _ _ G1).
    + apply Area_formatScan_some in H1. destruct H1 as (HI & _ & _).
      apply gtb_leb. apply F. exact HI.
  - destruct (Area.Abs l1 >=? Area.area W) eqn:G1.
    + exfalso. unfold geb in *. rewrite (leb_trans _ _ _ G1 Hle) in G2. discriminate.
    + intros H1 H2. exact (IH S l1 l2 v1 U1 v2 U2 Hle H1 H2).
Qed.

(** X11.  Between one micrometer and 1000 km, the unit chosen by [Length.format]
    grows with the magnitude: a larger magnitude is never rendered in a
    smaller unit. *)
Theorem Length_unit_monotone (l1 l2 : Length) :
  (Length.Abs l1 >=? Micrometer) = true ->
  (Length.Abs l1 <=? Length.Abs l2) = true ->
  (Length.Abs l2 <? 1000 * Kilometer) = true ->
  (Length.length (snd (Length.format l1)) <=? Length.length (snd (Length.format l2))) = true.
Proof.
  intros Hmin Hle Hmax. unfold Length.format.
  change (Length.length Length.kmDesc) with Kilometer.
  rewrite (ltb_geb_false _ _ Hmax).
  destruct (Length.Abs l1 >=? 1000 * Kilometer) eqn:G1.
  { exfalso. unfold geb in G1. assert (T := leb_trans _ _ _ G1 Hle).
    apply ltb_geb_false in Hmax. unfold geb in Hmax. congruence. }
  assert (M : In {| Length.length := Micrometer; Length.name := "Micrometer";
                    Length.symbol := "µm" |} Length.unitThresholds) by (simpl; tauto).
  destruct (Length.formatScan l1 Length.unitThresholds) as [[v1 U1]|] eqn:S1.
  2:{ exfalso. assert (F := Length_formatScan_none_inv _ _ S1 _ M).
      cbn [Length.length] in F. congruence. }
  destruct (Length.formatScan l2 Length.unitThresholds) as [[v2 U2]|] eqn:S2.
  2:{ exfalso. assert (F := Length_formatScan_none_inv _ _ S2 _ M).
      cbn [Length.length] in F. unfold geb in *.
      rewrite (leb_trans _ _ _ Hmin Hle) in F. discriminate. }
  cbn [snd].
  exact (Length_formatScan_monotone _ unitThresholds_descending _ _ _ _ _ _ Hle S1 S2).
Qed.

Lemma Length_unit_monotone_witness :
  (Length.length (snd (Length.format (0.998 * Meter))) <=?
   Length.length (snd (Length.format (- (2 * Meter))))) = true.
Proof.
  exact (Length_unit_monotone (0.998 * Meter) (- (2 * Meter)) eq_refl eq_refl eq_refl).
Defined.

(** X12.  Between one square millimeter and 1,000,000 km^2, the unit chosen by
    [Area.format] grows with the magnitude. *)
Theorem Area_unit_monotone (a1 a2 : Area) :
  (Area.Abs a1 >=? SquareMillimeter) = true ->
  (Area.Abs a1 <=? Area.Abs a2) = true ->
  (Area.Abs a2 <=? 1000000 * SquareKilometer) = true ->
  (Area.area (snd (Area.format a1)) <=? Area.area (snd (Area.format a2))) = true.
Proof.
  intros Hmin Hle Hmax. unfold Area.format.
  change (Area.area Area.squareKmDesc) with SquareKilometer.
  rewrite (leb_gtb_false _ _ Hmax).
  rewrite (leb_gtb_false _ _ (leb_trans _ _ _ Hle Hmax)).
  assert (M : In {| Area.area := SquareMillimeter; Area.name := "SquareMillimeter";
                    Area.symbol := "mm^2" |} Area.areaUnitThresholds) by (simpl; tauto).
  destruct (Area.formatScan a1 Area.areaUnitThresholds) as [[v1 U1]|] eqn:S1.
  2:{ exfalso. assert (F := Area_formatScan_none_inv _ _ S1 _ M).
      cbn [Area.area] in F. congruence. }
  destruct (Area.formatScan a2 Area.areaUnitThresholds) as [[v2 U2]|] eqn:S2.
  2:{ exfalso. assert (F := Area_formatScan_none_inv _ _ S2 _ M).
      cbn [Area.area] in F. unfold geb in *.
      rewrite (leb_trans _ _ _ Hmin Hle) in F. discriminate. }
  cbn [snd].
  exact (Area_formatScan_monotone _ areaUnitThresholds_descending _ _ _ _ _ _ Hle S1 S2).
Qed.

Lemma Area_unit_monotone_witness :
  (Area.area (snd (Area.format (98.7654321 * SquareMillimeter))) <=?
   Area.area (snd (Area.format (SquareMile)))) = true.
Proof.
  exact (Area_unit_monotone (98.7654321 * SquareMillimeter) SquareMile eq_refl eq_refl eq_refl).
Defined.

(** ** PerTime and the sign of the length *)

(** X13.  Negating the length negates the speed, for every length and duration. *)
Theorem PerTime_opp (l : Length) (d : time.Duration) :
  Length.PerTime (- l) d = - Length.PerTime l d.
Proof.
  unfold Length.PerTime, Length.Meters. change MeterPerSecond with 1.
  rewrite !mul_one. apply div_opp_l.
Qed.
